(** * Rollout and rollback of the [redis] deployment (exercises/deploy.go)

    A shallow embedding of [main], [deploy], [waitForPodContainersRunning]
    and [podContainersRunning].  The cluster is the only collaborator: the
    deployment store of namespace [default] is a finite map with optimistic
    concurrency on [ResourceVersion], and everything the cluster does on its
    own (pods coming and going, request failures, concurrent writers, the
    time a request takes) is read from a script indexed by the number of the
    request being served. *)

From Stdlib Require Import NArith ZArith String List Lia Bool.
From stdpp Require Import gmap strings list fin_maps.

Local Open Scope string_scope.
Local Open Scope N_scope.

(** ** The API objects, field by field as the program reaches them *)

Module ObjectMeta.
Record t := { Name : string; ResourceVersion : N; Labels : list (string * string) }.
End ObjectMeta.

Module Container.
Record t := { Name : string; Image : string; Ports : list Z }.
End Container.

Module PodSpec.
Record t := { Containers : list Container.t }.
End PodSpec.

Module PodTemplateSpec.
Record t := { Meta : ObjectMeta.t; Spec : PodSpec.t }.
End PodTemplateSpec.

Module DeploymentSpec.
Record t := { Replicas : Z; Selector : list (string * string); Template : PodTemplateSpec.t }.
End DeploymentSpec.

Module Deployment.
Record t := { Meta : ObjectMeta.t; Spec : DeploymentSpec.t }.
End Deployment.

Module ContainerStatus.
Record t := { Name : string; Ready : bool }.
End ContainerStatus.

Module PodStatus.
Record t := { ContainerStatuses : list ContainerStatus.t }.
End PodStatus.

Module Pod.
Record t := { Meta : ObjectMeta.t; Status : PodStatus.t }.
End Pod.

Module PodList.
Record t := { Items : list Pod.t }.
End PodList.

Module ListOptions.
Record t := { LabelSelector : string }.
End ListOptions.

(** [deployment.Spec.Template.Spec.Containers] *)
Definition containersOf (deployment : Deployment.t) : list Container.t :=
  PodSpec.Containers (PodTemplateSpec.Spec (DeploymentSpec.Template (Deployment.Spec deployment))).

(** ** Errors, formatted text and panics *)

Inductive StatusReason := Conflict | NotFound | Forbidden | ServerTimeout.

(** An [error] is either a status returned by the API server or a value built
    by [fmt.Errorf]; formats are kept with their operands, unrendered. *)
Inductive error :=
| StatusError (reason : StatusReason)
| Errorf (format : string) (operands : list operand)
with operand :=
| OpString (s : string)
| OpError (e : option error).

Inductive Text :=
| Literal (s : string)
| Sprintf (format : string) (operands : list operand).

Inductive PanicValue :=
| PanicError (e : error)
| PanicText (t : Text)
| IndexOutOfRange.

(** [errors.IsConflict] *)
Definition IsConflict (err : error) : bool :=
  match err with
  | StatusError Conflict => true
  | _ => false
  end.

(** [err == nil] *)
Definition isNil (err : option error) : bool :=
  match err with
  | None => true
  | Some _ => false
  end.

(** ** The world the program runs in *)

Inductive Request :=
| ReqGet (name : string)
| ReqUpdate (deployment : Deployment.t)
| ReqList (selector : string).

(** What the cluster does while it serves one request: how long the request
    takes, a write of some other client that lands first, whether the request
    fails, and the pods of the namespace at that moment. *)
Record Moment := {
  latency : N;
  rival : option (string * (DeploymentSpec.t → DeploymentSpec.t));
  fault : option StatusReason;
  pods : list Pod.t
}.

Record World := {
  clock : N;                                  (* wall clock, in nanoseconds *)
  deployments : gmap string Deployment.t;     (* the store of namespace default *)
  served : nat;                               (* requests served so far *)
  history : list (Request * option StatusReason);  (* newest first *)
  stdout : list Text                          (* printed lines, newest first *)
}.

(** A computation ends with a value, with a panic that unwinds to the top, or
    it is cut short because the polling budget of the model ran out
    ([waitLoop_never_starves] shows that this last case never occurs). *)
Inductive Result (A : Type) :=
| Ret (a : A)
| Panic (v : PanicValue)
| Starved.
Arguments Ret {A} a.
Arguments Panic {A} v.
Arguments Starved {A}.

Definition M (A : Type) : Type := World → Result A * World.

#[global] Instance M_ret : MRet M := λ A a w, (Ret a, w).
#[global] Instance M_bind : MBind M := λ A B k m w,
  match m w with
  | (Ret a, w') => k a w'
  | (Panic v, w') => (Panic v, w')
  | (Starved, w') => (Starved, w')
  end.

Definition panic {A} (v : PanicValue) : M A := λ w, (Panic v, w).

Definition println (t : Text) : M unit := λ w,
  (Ret tt, {| clock := clock w; deployments := deployments w; served := served w;
              history := history w; stdout := t :: stdout w |}).

(** [time.Now()] *)
Definition timeNow : M N := λ w, (Ret (clock w), w).

(** [<-time.NewTimer(d).C]: the flow is suspended for [d]. *)
Definition timer (d : N) : M unit := λ w,
  (Ret tt, {| clock := clock w + d; deployments := deployments w; served := served w;
              history := history w; stdout := stdout w |}).

(** ** The cluster's side of a request *)

Definition bump (d : Deployment.t) : Deployment.t :=
  {| Deployment.Meta :=
       {| ObjectMeta.Name := ObjectMeta.Name (Deployment.Meta d);
          ObjectMeta.ResourceVersion := ObjectMeta.ResourceVersion (Deployment.Meta d) + 1;
          ObjectMeta.Labels := ObjectMeta.Labels (Deployment.Meta d) |};
     Deployment.Spec := Deployment.Spec d |}.

Definition withSpec (f : DeploymentSpec.t → DeploymentSpec.t) (d : Deployment.t) : Deployment.t :=
  {| Deployment.Meta := Deployment.Meta d; Deployment.Spec := f (Deployment.Spec d) |}.

(** The write of another client: the named record gets a new spec and a new
    version. *)
Definition intrude (m : Moment) (store : gmap string Deployment.t) : gmap string Deployment.t :=
  match rival m with
  | None => store
  | Some (name, f) => alter (λ d, bump (withSpec f d)) name store
  end.

(** Label selectors of the form [key=value], as [podContainersRunning] builds
    them. *)
Definition selects (selector : string) (pod : Pod.t) : bool :=
  existsb (λ kv, String.eqb (fst kv +:+ "=" +:+ snd kv) selector)
          (ObjectMeta.Labels (Pod.Meta pod)).

Section Cluster.

Variable cluster : nat → Moment.

(** The request reaches the server: time passes, a rival write may land. *)
Definition arrive (w : World) : Moment * World :=
  let m := cluster (served w) in
  (m, {| clock := clock w + latency m; deployments := intrude m (deployments w);
         served := S (served w); history := history w; stdout := stdout w |}).

Definition record (req : Request) (res : option StatusReason) (w : World) : World :=
  {| clock := clock w; deployments := deployments w; served := served w;
     history := (req, res) :: history w; stdout := stdout w |}.

(** [dClient.Get(name, metav1.GetOptions{})] *)
Definition DeploymentsGet (name : string) : M (Deployment.t + error) := λ w,
  let '(m, w1) := arrive w in
  match fault m with
  | Some reason => (Ret (inr (StatusError reason)), record (ReqGet name) (Some reason) w1)
  | None =>
      match deployments w1 !! name with
      | None => (Ret (inr (StatusError NotFound)), record (ReqGet name) (Some NotFound) w1)
      | Some d => (Ret (inl d), record (ReqGet name) None w1)
      end
  end.

(** [dClient.Update(deployment)]: rejected with [Conflict] when the version
    the caller read is no longer the stored one. *)
Definition DeploymentsUpdate (deployment : Deployment.t) : M (Deployment.t + error) := λ w,
  let '(m, w1) := arrive w in
  let name := ObjectMeta.Name (Deployment.Meta deployment) in
  match fault m with
  | Some reason => (Ret (inr (StatusError reason)), record (ReqUpdate deployment) (Some reason) w1)
  | None =>
      match deployments w1 !! name with
      | None => (Ret (inr (StatusError NotFound)), record (ReqUpdate deployment) (Some NotFound) w1)
      | Some current =>
          if N.eqb (ObjectMeta.ResourceVersion (Deployment.Meta current))
                   (ObjectMeta.ResourceVersion (Deployment.Meta deployment))
          then
            let w2 := record (ReqUpdate deployment) None w1 in
            (Ret (inl (bump deployment)),
             {| clock := clock w2; deployments := <[name := bump deployment]> (deployments w2);
                served := served w2; history := history w2; stdout := stdout w2 |})
          else (Ret (inr (StatusError Conflict)), record (ReqUpdate deployment) (Some Conflict) w1)
      end
  end.

(** [clientSet.CoreV1().Pods("default").List(opts)] *)
Definition PodsList (opts : ListOptions.t) : M (PodList.t + error) := λ w,
  let '(m, w1) := arrive w in
  let selector := ListOptions.LabelSelector opts in
  match fault m with
  | Some reason => (Ret (inr (StatusError reason)), record (ReqList selector) (Some reason) w1)
  | None =>
      (Ret (inl {| PodList.Items := List.filter (selects selector) (pods m) |}),
       record (ReqList selector) None w1)
  end.

(** ** The retry helper of the client library *)

Record Backoff := { Steps : nat; Duration : N }.

(** Modelled from the spec: [retry.DefaultRetry] is declared by the client
    library, outside the sources; the retry is bounded in the number of
    attempts and uses the orchestrator's default backoff. *)
Variable DefaultRetry : Backoff.

(** Modelled from the spec: [retry.RetryOnConflict] belongs to the client
    library, outside the sources.  [fn] is run up to [Steps] times, with a
    pause before every attempt but the first; an attempt that ends without
    error ends the retry, an error that is not a conflict is handed back at
    once, and when the attempts are used up the conflict of the last one is
    the error returned. *)
Fixpoint retryLoop (remaining : nat) (first : bool) (duration : N)
    (lastConflictErr : option error) (fn : M (option error)) : M (option error) :=
  match remaining with
  | O => mret lastConflictErr
  | S remaining' =>
      (if first then mret tt else timer duration);;
      err ← fn;
      match err with
      | None => mret None
      | Some e =>
          if IsConflict e
          then retryLoop remaining' false duration (Some e) fn
          else mret (Some e)
      end
  end.

(** Modelled from the spec: the entry point of the retry, which starts the
    loop above with all attempts left and no conflict seen yet. *)
Definition RetryOnConflict (backoff : Backoff) (fn : M (option error)) : M (option error) :=
  retryLoop (Steps backoff) true (Duration backoff) None fn.

(** ** exercises/deploy.go *)

Definition deployRunningThreshold : N := 10 * 1000000000.
Definition deployRunningCheckInterval : N := 2 * 1000000000.

(** The two nested [range] loops of [podContainersRunning]: [false] as soon
    as a status is not ready, [true] when both loops run to their end. *)
Fixpoint rangeStatuses (statuses : list ContainerStatus.t) : bool :=
  match statuses with
  | [] => true
  | status :: rest =>
      if negb (ContainerStatus.Ready status) then false else rangeStatuses rest
  end.

Fixpoint rangeItems (items : list Pod.t) : bool :=
  match items with
  | [] => true
  | item :: rest =>
      if rangeStatuses (PodStatus.ContainerStatuses (Pod.Status item))
      then rangeItems rest
      else false
  end.

Definition podContainersRunning (app : string) : M (bool * option error) :=
  listed ← PodsList {| ListOptions.LabelSelector := "app=" +:+ app |};
  match listed with
  | inr err => mret (false, Some err)
  | inl pods => mret (rangeItems (PodList.Items pods), None)
  end.

(** The polling budget of the model: every turn of the loop takes at least
    [deployRunningCheckInterval], so the deadline is behind after this many
    turns. *)
Definition pollBudget : nat :=
  S (N.to_nat (deployRunningThreshold / deployRunningCheckInterval)).

(** The body of [for true { ... }] in [waitForPodContainersRunning]. *)
Fixpoint waitLoop (fuel : nat) (app : string) (end_ : N) : M (option error) :=
  match fuel with
  | O => λ w, (Starved, w)
  | S fuel' =>
      timer deployRunningCheckInterval;;
      '(running, err) ← podContainersRunning app;
      if (running : bool) then mret None
      else
        match err with
        | Some e =>
            println (Sprintf "Encountered an error checking for running pods: %s"
                             [OpError (Some e)])
        | None => mret tt
        end;;
        now ← timeNow;
        if N.ltb end_ now
        then mret (Some (Errorf "Failed to get all running containers" []))
        else waitLoop fuel' app end_
  end.

Definition waitForPodContainersRunning (app : string) : M (option error) :=
  now ← timeNow;
  let end_ := now + deployRunningThreshold in
  waitLoop pollBudget app end_.

(** The function literal that [deploy] hands to [retry.RetryOnConflict]: one
    read-transform-write cycle.  [op] mutates the descriptor it is given;
    [None] is the run-time panic of an index out of range. *)
Definition deployAttempt (app : string) (op : Deployment.t → option Deployment.t)
    : M (option error) :=
  got ← DeploymentsGet app;
  match got with
  | inr err =>
      panic (PanicError (Errorf "Failed to get latest version of %s: %s"
                                [OpString app; OpError (Some err)]))
  | inl result =>
      match op result with
      | None => panic IndexOutOfRange
      | Some result' =>
          updated ← DeploymentsUpdate result';
          match updated with
          | inr updateErr => mret (Some updateErr)
          | inl _ => mret None
          end
      end
  end.

Definition deploy (app : string) (op : Deployment.t → option Deployment.t) : M (option error) :=
  RetryOnConflict DefaultRetry (deployAttempt app op).

(** [deployment.Spec.Template.Spec.Containers[0].Image = image] *)
Definition setImage (image : string) (deployment : Deployment.t) : option Deployment.t :=
  let spec := Deployment.Spec deployment in
  let template := DeploymentSpec.Template spec in
  match containersOf deployment !! 0%nat with
  | None => None
  | Some c =>
      let c' := {| Container.Name := Container.Name c; Container.Image := image;
                   Container.Ports := Container.Ports c |} in
      Some {| Deployment.Meta := Deployment.Meta deployment;
              Deployment.Spec :=
                {| DeploymentSpec.Replicas := DeploymentSpec.Replicas spec;
                   DeploymentSpec.Selector := DeploymentSpec.Selector spec;
                   DeploymentSpec.Template :=
                     {| PodTemplateSpec.Meta := PodTemplateSpec.Meta template;
                        PodTemplateSpec.Spec :=
                          {| PodSpec.Containers := <[0%nat := c']> (containersOf deployment) |} |} |} |}
  end.

(** The transform of lines 46-48. *)
Definition setNewImage : Deployment.t → option Deployment.t :=
  setImage "redis:doesntexist".

(** The transform of lines 59-61: the image is read from the copy taken at
    the start, again at index 0. *)
Definition restoreImage (originalDeployment : Deployment.t) (deployment : Deployment.t)
    : option Deployment.t :=
  match containersOf originalDeployment !! 0%nat with
  | None => None
  | Some c => setImage (Container.Image c) deployment
  end.

(** [main], from the point where the connection to the cluster exists
    (line 33 on). *)
Definition main : M unit :=
  got ← DeploymentsGet "redis";
  match got with
  | inr err => panic (PanicError err)
  | inl originalDeployment =>
      '(allRunning, err) ← podContainersRunning "redis";
      if negb ((allRunning : bool) && isNil err)
      then panic (PanicText (Sprintf "Not all containers are currently running, or err: %s"
                                     [OpError err]))
      else
        err ← deploy "redis" setNewImage;
        match err with
        | Some e => panic (PanicError e)
        | None =>
            err ← waitForPodContainersRunning "redis";
            match err with
            | None => println (Literal "Deploy successful")
            | Some _ => mret tt
            end;;
            (* Try rolling back *)
            err ← deploy "redis" (restoreImage originalDeployment);
            match err with
            | Some e => panic (PanicError e)
            | None =>
                err ← waitForPodContainersRunning "redis";
                match err with
                | Some e => panic (PanicError e)
                | None => println (Literal "Rolled back successfully!")
                end
            end
        end
  end.

End Cluster.

(** ** Vocabulary of the statements *)

(** The instances a health query issued in world [w] is answered with. *)
Definition instances (cluster : nat → Moment) (app : string) (w : World) : list Pod.t :=
  List.filter (selects ("app=" +:+ app)) (pods (cluster (served w))).

(** What [podContainersRunning] answers when its query is served under [m]. *)
Definition verdict (app : string) (m : Moment) : bool * option error :=
  match fault m with
  | Some reason => (false, Some (StatusError reason))
  | None => (rangeItems (List.filter (selects ("app=" +:+ app)) (pods m)), None)
  end.

(** The world once a health query has been served. *)
Definition queried (cluster : nat → Moment) (app : string) (w : World) : World :=
  let m := cluster (served w) in
  {| clock := clock w + latency m; deployments := intrude m (deployments w);
     served := S (served w);
     history := (ReqList ("app=" +:+ app), fault m) :: history w;
     stdout := stdout w |}.

Definition reportsConverged (cluster : nat → Moment) (app : string) (w : World) : bool :=
  match podContainersRunning cluster app w with
  | (Ret (running, _), _) => running
  | _ => false
  end.

(** Every readiness flag of every instance is set. *)
Definition allReady (items : list Pod.t) : Prop :=
  ∀ item status, In item items →
    In status (PodStatus.ContainerStatuses (Pod.Status item)) →
    ContainerStatus.Ready status = true.

(** Convergence as the specification words it: at least one instance, and
    every flag of every instance set. *)
Definition specConverged (items : list Pod.t) : bool :=
  negb (bool_decide (items = [] :> list Pod.t)) &&
  forallb (λ item, forallb ContainerStatus.Ready
                           (PodStatus.ContainerStatuses (Pod.Status item))) items.

(** [d'] is [d] with the image of container 0 set to [image], and nothing
    else touched. *)
Definition onlyImageChanged (image : string) (d d' : Deployment.t) : Prop :=
  Deployment.Meta d' = Deployment.Meta d ∧
  DeploymentSpec.Replicas (Deployment.Spec d') = DeploymentSpec.Replicas (Deployment.Spec d) ∧
  DeploymentSpec.Selector (Deployment.Spec d') = DeploymentSpec.Selector (Deployment.Spec d) ∧
  PodTemplateSpec.Meta (DeploymentSpec.Template (Deployment.Spec d'))
    = PodTemplateSpec.Meta (DeploymentSpec.Template (Deployment.Spec d)) ∧
  ∃ c rest,
    containersOf d = c :: rest ∧
    containersOf d' =
      {| Container.Name := Container.Name c; Container.Image := image;
         Container.Ports := Container.Ports c |} :: rest.

(** A transform either panics on an empty container list, writing nothing,
    or leaves everything but the image of container 0 as it was. *)
Definition framed (image : string) (d : Deployment.t) (out : option Deployment.t) : Prop :=
  match out with
  | None => containersOf d = []
  | Some d' => onlyImageChanged image d d'
  end.

(** The error [waitForPodContainersRunning] gives up with. *)
Definition timeoutErr : error := Errorf "Failed to get all running containers" [].

(** The line printed for a failed health query. *)
Definition errorLine (m : Moment) : list Text :=
  match fault m with
  | Some reason =>
      [Sprintf "Encountered an error checking for running pods: %s"
               [OpError (Some (StatusError reason))]]
  | None => []
  end.

(** The world after one turn of the polling loop: the timer, the query and,
    when the query failed, the printed line. *)
Definition polled (cluster : nat → Moment) (app : string) (w : World) : World :=
  let m := cluster (served w) in
  {| clock := clock w + deployRunningCheckInterval + latency m;
     deployments := intrude m (deployments w);
     served := S (served w);
     history := (ReqList ("app=" +:+ app), fault m) :: history w;
     stdout := errorLine m ++ stdout w |}.

Fixpoint afterPolls (cluster : nat → Moment) (app : string) (n : nat) (w : World) : World :=
  match n with
  | O => w
  | S n' => afterPolls cluster app n' (polled cluster app w)
  end.

(** The descriptors of the updates the store accepted, newest first. *)
Definition accepted (h : list (Request * option StatusReason)) : list Deployment.t :=
  omap (λ entry, match entry with
                 | (ReqUpdate d, None) => Some d
                 | _ => None
                 end) h.

(** The image of container 0, when there is a container 0. *)
Definition specImage (spec : DeploymentSpec.t) : option string :=
  Container.Image <$> PodSpec.Containers (PodTemplateSpec.Spec (DeploymentSpec.Template spec)) !! 0%nat.

Definition imageOf (d : Deployment.t) : option string := specImage (Deployment.Spec d).

Definition storedImage (w : World) (app : string) : option string :=
  deployments w !! app ≫= imageOf.

(** Every record of the store is filed under its own name. *)
Definition wellKeyed (store : gmap string Deployment.t) : Prop :=
  ∀ name d, store !! name = Some d → ObjectMeta.Name (Deployment.Meta d) = name.

(** A transform of the desired state proper: the spec changes, the metadata
    (name, version) does not. *)
Definition onSpec (f : DeploymentSpec.t → DeploymentSpec.t) : Deployment.t → option Deployment.t :=
  λ d, Some (withSpec f d).

(** The world when an attempt of the retry starts: every attempt but the
    first comes after a pause. *)
Definition rested (first : bool) (duration : N) (w : World) : World :=
  if first then w else snd (timer duration w).

Definition readable (m : Moment) : bool :=
  match fault m with
  | None => true
  | Some _ => false
  end.

Definition targets (app : string) (m : Moment) : bool :=
  match rival m with
  | Some (name, _) => String.eqb name app
  | None => false
  end.

(** An update served under [m] for a descriptor read one request earlier is
    rejected with a conflict: either the server says so, or the write of
    another client to the same record landed in between. *)
Definition staleAt (app : string) (m : Moment) : bool :=
  match fault m with
  | Some Conflict => true
  | Some _ => false
  | None => targets app m
  end.

(** The next [k] read-transform-write cycles, the first of them starting with
    request [from], all read successfully and are all rejected with a
    conflict. *)
Fixpoint conflicts (cluster : nat → Moment) (app : string) (from k : nat) : bool :=
  match k with
  | O => true
  | S k' =>
      readable (cluster from) && staleAt app (cluster (S from)) &&
      conflicts cluster app (S (S from)) k'
  end.

(** The cycle starting with request [from] reads successfully and its update
    meets neither a failure nor a write of another client to [app]. *)
Definition lands (cluster : nat → Moment) (app : string) (from : nat) : bool :=
  readable (cluster from) && readable (cluster (S from)) && negb (targets app (cluster (S from))).

(** The store once the writes of other clients that come with requests
    [from], ..., [from + n - 1] have landed. *)
Fixpoint settle (cluster : nat → Moment) (from n : nat) (store : gmap string Deployment.t)
    : gmap string Deployment.t :=
  match n with
  | O => store
  | S n' => settle cluster (S from) n' (intrude (cluster from) store)
  end.

(** No write of another client changes the image of container 0. *)
Definition imagePreserving (cluster : nat → Moment) : Prop :=
  ∀ n name g spec, rival (cluster n) = Some (name, g) → specImage (g spec) = specImage spec.

(** What one read-transform-write cycle for [app] can end with: an accepted
    update of the transformed descriptor, the status error of a refused
    update, or one of the two panics. *)
Definition attemptPost (app : string) (op : Deployment.t → option Deployment.t)
    (r : Result (option error)) (w' : World) : Prop :=
  match r with
  | Ret None =>
      ∃ result result',
        ObjectMeta.Name (Deployment.Meta result) = app ∧
        op result = Some result' ∧
        deployments w' !! ObjectMeta.Name (Deployment.Meta result') = Some (bump result')
  | Ret (Some e) => ∃ reason, e = StatusError reason
  | Panic v =>
      v = IndexOutOfRange ∨
      ∃ err, v = PanicError (Errorf "Failed to get latest version of %s: %s"
                                    [OpString app; OpError (Some err)])
  | Starved => False
  end.

(** ** The deployment of deployments/redis.yml and some clusters *)

Definition redisDeployment : Deployment.t :=
  {| Deployment.Meta :=
       {| ObjectMeta.Name := "redis"; ObjectMeta.ResourceVersion := 1; ObjectMeta.Labels := [] |};
     Deployment.Spec :=
       {| DeploymentSpec.Replicas := 2%Z;
          DeploymentSpec.Selector := [("app", "redis")];
          DeploymentSpec.Template :=
            {| PodTemplateSpec.Meta :=
                 {| ObjectMeta.Name := ""; ObjectMeta.ResourceVersion := 0;
                    ObjectMeta.Labels := [("app", "redis")] |};
               PodTemplateSpec.Spec :=
                 {| PodSpec.Containers :=
                      [ {| Container.Name := "redis"; Container.Image := "redis:3";
                           Container.Ports := [6379%Z] |} ] |} |} |} |}.

Definition redisPod (name : string) (ready : bool) : Pod.t :=
  {| Pod.Meta := {| ObjectMeta.Name := name; ObjectMeta.ResourceVersion := 1;
                    ObjectMeta.Labels := [("app", "redis")] |};
     Pod.Status :=
       {| PodStatus.ContainerStatuses :=
            [ {| ContainerStatus.Name := "redis"; ContainerStatus.Ready := ready |} ] |} |}.

Definition calm (ps : list Pod.t) : Moment :=
  {| latency := 0; rival := None; fault := None; pods := ps |}.

Definition failing (reason : StatusReason) : Moment :=
  {| latency := 0; rival := None; fault := Some reason; pods := [] |}.

Definition twoOfTwo : list Pod.t := [redisPod "redis-a" true; redisPod "redis-b" true].
Definition oneOfTwo : list Pod.t := [redisPod "redis-a" true; redisPod "redis-b" false].

Definition world0 : World :=
  {| clock := 0; deployments := {[ "redis" := redisDeployment ]}; served := 0%nat;
     history := []; stdout := [] |}.

Definition retry5 : Backoff := {| Steps := 5; Duration := 10 * 1000000 |}.

(** Both pods ready whenever asked, no failure, no other writer. *)
Definition healthy : nat → Moment := λ _, calm twoOfTwo.

(** No pod carries the label. *)
Definition noPods : nat → Moment := λ _, calm [].

(** One of the two pods is not ready. *)
Definition degraded : nat → Moment := λ _, calm oneOfTwo.

(** The first request is refused, everything after it is served. *)
Definition forbiddenRead : nat → Moment := λ n,
  match n with
  | O => failing Forbidden
  | _ => calm twoOfTwo
  end.

Definition scaleTo (replicas : Z) (spec : DeploymentSpec.t) : DeploymentSpec.t :=
  {| DeploymentSpec.Replicas := replicas;
     DeploymentSpec.Selector := DeploymentSpec.Selector spec;
     DeploymentSpec.Template := DeploymentSpec.Template spec |}.

(** Another client rescales [redis] while requests 1 and 3 are on their way;
    after that the cluster is quiet. *)
Definition contended : nat → Moment := λ n,
  match n with
  | 1%nat => {| latency := 0; rival := Some ("redis", scaleTo 3); fault := None; pods := twoOfTwo |}
  | 3%nat => {| latency := 0; rival := Some ("redis", scaleTo 4); fault := None; pods := twoOfTwo |}
  | _ => calm twoOfTwo
  end.

(** Another client rescales [redis] with every request. *)
Definition crowded : nat → Moment := λ n,
  {| latency := 0; rival := Some ("redis", scaleTo (Z.of_nat n)); fault := None; pods := twoOfTwo |}.

(** ** Further vocabulary and clusters *)

(** The pod reports at least one container status. *)
Definition hasStatuses (item : Pod.t) : bool :=
  match PodStatus.ContainerStatuses (Pod.Status item) with
  | [] => false
  | _ :: _ => true
  end.

(** No other client writes to the store. *)
Definition quiet (cluster : nat → Moment) : Prop := ∀ n, rival (cluster n) = None.

(** A pod that has been created and reports no container status yet. *)
Definition pendingPod (name : string) : Pod.t :=
  {| Pod.Meta := {| ObjectMeta.Name := name; ObjectMeta.ResourceVersion := 1;
                    ObjectMeta.Labels := [("app", "redis")] |};
     Pod.Status := {| PodStatus.ContainerStatuses := [] |} |}.

(** One pod is ready, the other has not reported anything yet. *)
Definition starting : nat → Moment := λ _, calm [redisPod "redis-a" true; pendingPod "redis-b"].

(** The first two requests time out at the server, after that both pods are
    ready. *)
Definition flaky : nat → Moment := λ n,
  if (n <? 2)%nat then failing ServerTimeout else calm twoOfTwo.

(** A deployment whose pod template lists no container. *)
Definition bareDeployment : Deployment.t :=
  {| Deployment.Meta :=
       {| ObjectMeta.Name := "redis"; ObjectMeta.ResourceVersion := 1; ObjectMeta.Labels := [] |};
     Deployment.Spec :=
       {| DeploymentSpec.Replicas := 2%Z;
          DeploymentSpec.Selector := [("app", "redis")];
          DeploymentSpec.Template :=
            {| PodTemplateSpec.Meta :=
                 {| ObjectMeta.Name := ""; ObjectMeta.ResourceVersion := 0;
                    ObjectMeta.Labels := [("app", "redis")] |};
               PodTemplateSpec.Spec := {| PodSpec.Containers := [] |} |} |} |}.

Definition worldBare : World :=
  {| clock := 0; deployments := {[ "redis" := bareDeployment ]}; served := 0%nat;
     history := []; stdout := [] |}.

(** A namespace without any deployment. *)
Definition worldEmpty : World :=
  {| clock := 0; deployments := ∅; served := 0%nat; history := []; stdout := [] |}.

(** ** Vocabulary for the retry, cycle by cycle *)

(** The world in which cycle [k + 1] of a retry over [deployAttempt] starts,
    when each of the [k] cycles before it was rejected with a conflict;
    [None] when one of them ended in another way.  As in the retry, every
    cycle but the first comes after a pause. *)
Fixpoint cycleStart (cluster : nat → Moment) (duration : N) (app : string)
    (op : Deployment.t → option Deployment.t) (k : nat) (first : bool) (w : World)
    : option World :=
  match k with
  | O => Some (rested first duration w)
  | S k' =>
      match deployAttempt cluster app op (rested first duration w) with
      | (Ret (Some e), w') =>
          if IsConflict e then cycleStart cluster duration app op k' false w' else None
      | _ => None
      end
  end.

(** The transform leaves the metadata (name, version, labels) alone. *)
Definition keepsMeta (op : Deployment.t → option Deployment.t) : Prop :=
  ∀ d d', op d = Some d' → Deployment.Meta d' = Deployment.Meta d.

(** The transform does not panic on the descriptor that each of the first
    [k] cycles reads, the first cycle starting with request [from] on
    [store]. *)
Definition definedOn (cluster : nat → Moment) (app : string)
    (op : Deployment.t → option Deployment.t) (from : nat)
    (store : gmap string Deployment.t) (k : nat) : Prop :=
  ∀ j d, (j < k)%nat → settle cluster from (2 * j + 1) store !! app = Some d → is_Some (op d).

(** The deadline passes without the instances having converged, as the
    specification words it: no poll that ends by the deadline finds them
    converged. *)
Definition specDeadlinePassedUnconverged (cluster : nat → Moment) (app : string) (w : World)
    : Prop :=
  ∀ k, clock (afterPolls cluster app (S k) w) ≤ clock w + deployRunningThreshold →
       fst (verdict app (cluster (served w + k)%nat)) = false.

(** ** Clusters in which requests take time *)

Definition slow (ps : list Pod.t) : Moment :=
  {| latency := 20 * 1000000; rival := None; fault := None; pods := ps |}.

(** Every request takes 20 ms; one pod is not ready for the first four
    requests, after that both are. *)
Definition slowlyReady : nat → Moment := λ n,
  if (n <? 4)%nat then slow oneOfTwo else slow twoOfTwo.

(** Every request takes 13 ms and finds both pods ready. *)
Definition promptlyReady : nat → Moment := λ _,
  {| latency := 13 * 1000000; rival := None; fault := None; pods := twoOfTwo |}.

(** Another client rescales [redis] while requests 1 and 3 are on their way;
    request 5 is refused. *)
Definition refusedLater : nat → Moment := λ n,
  match n with
  | 1%nat => {| latency := 0; rival := Some ("redis", scaleTo 3); fault := None; pods := twoOfTwo |}
  | 3%nat => {| latency := 0; rival := Some ("redis", scaleTo 4); fault := None; pods := twoOfTwo |}
  | 5%nat => failing Forbidden
  | _ => calm twoOfTwo
  end.

(** Another client rescales [redis] while requests 1 and 3 are on their way;
    request 4 is refused. *)
Definition unreadableLater : nat → Moment := λ n,
  match n with
  | 1%nat => {| latency := 0; rival := Some ("redis", scaleTo 3); fault := None; pods := twoOfTwo |}
  | 3%nat => {| latency := 0; rival := Some ("redis", scaleTo 4); fault := None; pods := twoOfTwo |}
  | 4%nat => failing Forbidden
  | _ => calm twoOfTwo
  end.

(** Another client rescales [redis] while each of the first five updates is
    on its way (requests 1, 3, 5, 7 and 9); after that the cluster is
    quiet. *)
Definition fiveConflicts : nat → Moment := λ n,
  if (n <? 10)%nat && Nat.odd n
  then {| latency := 0; rival := Some ("redis", scaleTo (Z.of_nat n)); fault := None;
          pods := twoOfTwo |}
  else calm twoOfTwo.

(** ** Running the monad *)

Section Facts.

Context (cluster : nat → Moment) (DefaultRetry : Backoff).

Lemma bind_Ret {A B} (m : M A) (k : A → M B) (w w1 : World) (a : A) :
  m w = (Ret a, w1) → (m ≫= k) w = k a w1.
Proof. intros H. unfold mbind, M_bind. now rewrite H. Qed.

Lemma bind_Panic {A B} (m : M A) (k : A → M B) (w w1 : World) (v : PanicValue) :
  m w = (Panic v, w1) → (m ≫= k) w = (Panic v, w1).
Proof. intros H. unfold mbind, M_bind. now rewrite H. Qed.

Lemma podContainersRunning_eq (app : string) (w : World) :
  podContainersRunning cluster app w
  = (Ret (verdict app (cluster (served w))), queried cluster app w).
Proof.
  unfold podContainersRunning, PodsList, verdict, queried, mbind, M_bind, arrive, record.
  simpl. destruct (fault (cluster (served w))); reflexivity.
Qed.

Lemma rangeStatuses_true (statuses : list ContainerStatus.t) :
  rangeStatuses statuses = true ↔
  ∀ status, In status statuses → ContainerStatus.Ready status = true.
Proof.
  induction statuses as [| status rest IH]; simpl.
  - split; [intros _ ? [] | reflexivity].
  - destruct (ContainerStatus.Ready status) eqn:E; simpl.
    + rewrite IH. split.
      * intros H s [<- | Hs]; auto.
      * intros H s Hs. apply H. now right.
    + split; [discriminate |]. intros H. rewrite <- E. apply H. now left.
Qed.

Lemma rangeItems_true (items : list Pod.t) :
  rangeItems items = true ↔ allReady items.
Proof.
  unfold allReady. induction items as [| item rest IH]; simpl.
  - split; [intros _ ? ? [] | reflexivity].
  - destruct (rangeStatuses (PodStatus.ContainerStatuses (Pod.Status item))) eqn:E.
    + rewrite IH. pose proof (proj1 (rangeStatuses_true _) E) as E'. split.
      * intros H i s [<- | Hi] Hs; eauto.
      * intros H i s Hi Hs. apply (H i s); auto.
    + split; [discriminate |]. intros H.
      assert (rangeStatuses (PodStatus.ContainerStatuses (Pod.Status item)) = true) as E'.
      { apply rangeStatuses_true. intros s Hs. apply (H item s); auto. }
      congruence.
Qed.

(** ** The polling loop *)

Lemma waitLoop_S (fuel : nat) (app : string) (end_ : N) (w : World) :
  waitLoop cluster (S fuel) app end_ w =
    if fst (verdict app (cluster (served w))) then (Ret None, polled cluster app w)
    else if N.ltb end_ (clock (polled cluster app w))
         then (Ret (Some timeoutErr), polled cluster app w)
         else waitLoop cluster fuel app end_ (polled cluster app w).
Proof.
  cbn [waitLoop]. unfold mbind at 1, M_bind at 1. cbn [timer].
  unfold mbind at 1, M_bind at 1. rewrite podContainersRunning_eq.
  unfold verdict, polled, queried, errorLine. cbn [served clock deployments history stdout].
  destruct (fault (cluster (served w))) as [reason |]; cbn [fst snd].
  - unfold mbind, M_bind, println, timeNow. cbn.
    destruct (N.ltb end_ _); reflexivity.
  - destruct (rangeItems _); [reflexivity |].
    unfold mbind, M_bind, timeNow. cbn.
    destruct (N.ltb end_ _); reflexivity.
Qed.

Lemma served_afterPolls (app : string) (n : nat) (w : World) :
  served (afterPolls cluster app n w) = (served w + n)%nat.
Proof.
  revert w. induction n as [| n IH]; intros w; cbn [afterPolls].
  - lia.
  - rewrite IH. cbn. lia.
Qed.

Lemma clock_polled (app : string) (w : World) :
  clock w + deployRunningCheckInterval ≤ clock (polled cluster app w).
Proof. cbn. lia. Qed.

Lemma afterPolls_S (app : string) (n : nat) (w : World) :
  afterPolls cluster app (S n) w = polled cluster app (afterPolls cluster app n w).
Proof.
  revert w. induction n as [| n IH]; intros w; [reflexivity |].
  change (afterPolls cluster app (S (S n)) w)
    with (afterPolls cluster app (S n) (polled cluster app w)).
  now rewrite IH.
Qed.

(** The loop, turn by turn: it stops at some poll [n], all earlier polls were
    not converged and not late, and poll [n] is either converged or late. *)
Lemma waitLoop_run (fuel : nat) (app : string) (end_ : N) (w : World) :
  end_ < clock w + N.of_nat (S fuel) * deployRunningCheckInterval →
  ∃ n, (n ≤ fuel)%nat ∧
    (∀ k, (k < n)%nat →
       fst (verdict app (cluster (served w + k))) = false ∧
       clock (afterPolls cluster app (S k) w) ≤ end_) ∧
    waitLoop cluster (S fuel) app end_ w
      = (Ret (if fst (verdict app (cluster (served w + n))) then None else Some timeoutErr),
         afterPolls cluster app (S n) w) ∧
    (fst (verdict app (cluster (served w + n))) = false →
       end_ < clock (afterPolls cluster app (S n) w)).
Proof.
  revert w. induction fuel as [| fuel IH]; intros w Hfuel.
  - exists 0%nat. rewrite Nat.add_0_r, waitLoop_S. cbn [afterPolls].
    pose proof (clock_polled app w) as Hc.
    assert (end_ < clock (polled cluster app w)) as Hlate by lia.
    split; [lia |]. split; [intros k Hk; lia |].
    destruct (fst (verdict app (cluster (served w)))); split; auto; try discriminate.
    apply N.ltb_lt in Hlate. now rewrite Hlate.
  - rewrite waitLoop_S.
    destruct (fst (verdict app (cluster (served w)))) eqn:Hv.
    + exists 0%nat. rewrite Nat.add_0_r, Hv. cbn [afterPolls].
      split; [lia |]. split; [intros k Hk; lia |]. split; [reflexivity | discriminate].
    + destruct (N.ltb end_ (clock (polled cluster app w))) eqn:Hlate.
      * exists 0%nat. rewrite Nat.add_0_r, Hv. cbn [afterPolls].
        split; [lia |]. split; [intros k Hk; lia |]. split; [reflexivity |].
        intros _. now apply N.ltb_lt.
      * apply N.ltb_ge in Hlate.
        pose proof (clock_polled app w) as Hc.
        destruct (IH (polled cluster app w)) as (n & Hn & Hbefore & Hrun & Hend).
        { rewrite Nat2N.inj_succ, N.mul_succ_l in Hfuel. lia. }
        assert (∀ k, (served (polled cluster app w) + k = served w + S k)%nat) as Hidx
          by (intros k; cbn; lia).
        exists (S n). split; [lia |]. split; [| split].
        -- intros [| k] Hk.
           ++ rewrite Nat.add_0_r. split; [exact Hv | exact Hlate].
           ++ destruct (Hbefore k ltac:(lia)) as [Hvk Hck].
              rewrite Hidx in Hvk. split; [exact Hvk | exact Hck].
        -- rewrite Hrun, Hidx. reflexivity.
        -- rewrite <- Hidx. exact Hend.
Qed.

Lemma pollBudget_covers (c : N) :
  c + deployRunningThreshold < c + N.of_nat pollBudget * deployRunningCheckInterval.
Proof. vm_compute N.of_nat. unfold deployRunningThreshold, deployRunningCheckInterval. lia. Qed.

Lemma waitFor_run (app : string) (w : World) :
  ∃ n, (n < pollBudget)%nat ∧
    (∀ k, (k < n)%nat →
       fst (verdict app (cluster (served w + k))) = false ∧
       clock (afterPolls cluster app (S k) w) ≤ clock w + deployRunningThreshold) ∧
    waitForPodContainersRunning cluster app w
      = (Ret (if fst (verdict app (cluster (served w + n))) then None else Some timeoutErr),
         afterPolls cluster app (S n) w) ∧
    (fst (verdict app (cluster (served w + n))) = false →
       clock w + deployRunningThreshold < clock (afterPolls cluster app (S n) w)).
Proof.
  destruct (waitLoop_run (pred pollBudget) app (clock w + deployRunningThreshold) w)
    as (n & Hn & Hbefore & Hrun & Hend).
  { apply pollBudget_covers. }
  exists n. split; [unfold pollBudget in *; cbn [pred] in Hn; lia |].
  split; [exact Hbefore |]. split; [| exact Hend].
  unfold waitForPodContainersRunning, mbind, M_bind, timeNow. exact Hrun.
Qed.

(** The wait always comes back with an answer: the polling budget of the
    model is never used up. *)
Lemma waitLoop_never_starves (app : string) (w : World) :
  fst (waitForPodContainersRunning cluster app w) ≠ Starved.
Proof.
  destruct (waitFor_run app w) as (n & _ & _ & Hrun & _). rewrite Hrun. discriminate.
Qed.

(** ** The health check and the wait *)

(** C2, as the code has it: the health check reports converged exactly when
    the query succeeded and every readiness flag of every listed instance is
    set.  No instance at all satisfies this, so with an empty instance set
    and a query that succeeds the wait reports success on its first
    poll. *)
Theorem converged_iff_query_ok_and_all_ready (app : string) (w : World) :
  (reportsConverged cluster app w = true ↔
     fault (cluster (served w)) = None ∧ allReady (instances cluster app w)) ∧
  (fault (cluster (served w)) = None → instances cluster app w = [] →
     waitForPodContainersRunning cluster app w = (Ret None, polled cluster app w)).
Proof.
  split.
  - unfold reportsConverged. rewrite podContainersRunning_eq.
    unfold verdict, instances. destruct (fault (cluster (served w))) as [reason |].
    + split; [discriminate | intros [? _]; discriminate].
    + rewrite rangeItems_true. split; [intros H; split; [reflexivity | exact H] | intros [_ H]; exact H].
  - intros Hfault Hempty.
    unfold waitForPodContainersRunning, mbind, M_bind, timeNow, pollBudget.
    rewrite waitLoop_S. unfold verdict. rewrite Hfault.
    unfold instances in Hempty. rewrite Hempty. reflexivity.
Qed.

(** C9, as the code has it: when the first health query succeeds and finds
    every instance ready,
    the wait returns success after exactly one tick: one timer of
    [deployRunningCheckInterval] and one query, so the time spent is the
    interval plus the time the query itself took. *)
Theorem ready_on_first_poll_returns_after_one_tick (app : string) (w : World) :
  fault (cluster (served w)) = None →
  allReady (instances cluster app w) →
  waitForPodContainersRunning cluster app w = (Ret None, polled cluster app w) ∧
  served (polled cluster app w) = S (served w) ∧
  clock (polled cluster app w)
    = clock w + deployRunningCheckInterval + latency (cluster (served w)).
Proof.
  intros Hfault Hready. split; [| split; reflexivity].
  unfold waitForPodContainersRunning, mbind, M_bind, timeNow, pollBudget.
  rewrite waitLoop_S. unfold verdict. rewrite Hfault.
  apply rangeItems_true in Hready. unfold instances in Hready. cbn [fst].
  now rewrite Hready.
Qed.

Lemma stdout_afterPolls_mono (app : string) (line : Text) (n : nat) (w : World) :
  In line (stdout w) → In line (stdout (afterPolls cluster app n w)).
Proof.
  revert w. induction n as [| n IH]; intros w Hin; [exact Hin |].
  cbn [afterPolls]. apply IH. cbn [polled stdout]. apply in_or_app. now right.
Qed.

Lemma failed_query_printed (app : string) (n : nat) :
  ∀ (w : World) (k : nat) (reason : StatusReason),
    (k < n)%nat →
    fault (cluster (served w + k)) = Some reason →
    In (Sprintf "Encountered an error checking for running pods: %s"
                [OpError (Some (StatusError reason))])
       (stdout (afterPolls cluster app n w)).
Proof.
  induction n as [| n IH]; intros w k reason Hk Hfault; [lia |].
  cbn [afterPolls]. destruct k as [| k].
  - rewrite Nat.add_0_r in Hfault. apply stdout_afterPolls_mono.
    cbn [polled stdout]. unfold errorLine. rewrite Hfault. now left.
  - apply (IH _ k reason); [lia |].
    cbn [polled served].
    replace (S (served w) + k)%nat with (served w + S k)%nat by lia. exact Hfault.
Qed.

(** C5, as the code has it: a health query that fails does not end the
    loop: its error is
    printed and, the deadline not being behind, the next turn is taken.  The
    wait always returns, after some number of polls, with success or with the
    timeout error; every query that failed on the way has been printed; and
    the timeout error is returned exactly when some poll ends after the
    deadline with no poll up to and including it having found the instances
    converged, failed queries counting as polls that did not converge. *)
Theorem wait_tolerates_errors_until_deadline (app : string) (w : World) :
  (∀ fuel end_ reason w0,
     fault (cluster (served w0)) = Some reason →
     clock (polled cluster app w0) ≤ end_ →
     waitLoop cluster (S fuel) app end_ w0
       = waitLoop cluster fuel app end_ (polled cluster app w0) ∧
     stdout (polled cluster app w0)
       = Sprintf "Encountered an error checking for running pods: %s"
                 [OpError (Some (StatusError reason))] :: stdout w0) ∧
  ∃ n res,
    waitForPodContainersRunning cluster app w
      = (Ret res, afterPolls cluster app (S n) w) ∧
    (res = None ∨ res = Some timeoutErr) ∧
    (res = Some timeoutErr ↔
       ∃ m, clock w + deployRunningThreshold < clock (afterPolls cluster app (S m) w) ∧
            ∀ k, (k ≤ m)%nat → fst (verdict app (cluster (served w + k))) = false) ∧
    (∀ k reason,
       (k ≤ n)%nat →
       fault (cluster (served w + k)) = Some reason →
       In (Sprintf "Encountered an error checking for running pods: %s"
                   [OpError (Some (StatusError reason))])
          (stdout (afterPolls cluster app (S n) w))).
Proof.
  split.
  - intros fuel end_ reason w0 Hfault Hearly. split.
    + rewrite waitLoop_S. unfold verdict. rewrite Hfault. cbn [fst].
      apply N.ltb_ge in Hearly. now rewrite Hearly.
    + unfold polled, errorLine. cbn [stdout]. now rewrite Hfault.
  - destruct (waitFor_run app w) as (n & Hn & Hbefore & Hrun & Hend).
    exists n. eexists. split; [exact Hrun |].
    assert (∀ k reason,
              (k ≤ n)%nat →
              fault (cluster (served w + k)) = Some reason →
              In (Sprintf "Encountered an error checking for running pods: %s"
                          [OpError (Some (StatusError reason))])
                 (stdout (afterPolls cluster app (S n) w))) as Hprinted.
    { intros k reason Hk Hfault. apply (failed_query_printed app (S n) w k reason); [lia | exact Hfault]. }
    destruct (fst (verdict app (cluster (served w + n)))) eqn:Hv.
    + split; [now left |]. split; [| exact Hprinted]. split; [discriminate |].
      intros (m & Hlate & Hnone). exfalso.
      destruct (Nat.lt_ge_cases m n) as [Hlt | Hge].
      * destruct (Hbefore m Hlt) as [_ Hc]. lia.
      * rewrite (Hnone n Hge) in Hv. discriminate.
    + split; [now right |]. split; [| exact Hprinted]. split; [| reflexivity].
      intros _. exists n. split; [now apply Hend |].
      intros k Hk. destruct (Nat.eq_dec k n) as [-> | Hne]; [exact Hv |].
      apply Hbefore. lia.
Qed.

(** ** The two transforms *)

Lemma setImage_framed (image : string) (deployment : Deployment.t) :
  framed image deployment (setImage image deployment).
Proof.
  unfold framed, setImage.
  destruct (containersOf deployment) as [| c rest] eqn:Hc; cbn; [reflexivity |].
  unfold onlyImageChanged, containersOf. cbn. repeat split; try reflexivity.
  exists c, rest. split; [exact Hc | reflexivity].
Qed.

(** C7: on every descriptor, each of the two transforms of the rollout either
    stops on an index out of range (no container 0 in the descriptor, or none
    in the copy the image is restored from) and produces nothing, or yields
    the descriptor with the image of container 0 replaced and every other
    field, container 0's name and ports and all further containers included,
    as it was. *)
Theorem transforms_change_only_the_image (originalDeployment deployment : Deployment.t) :
  framed "redis:doesntexist" deployment (setNewImage deployment) ∧
  match containersOf originalDeployment !! 0%nat with
  | Some c => framed (Container.Image c) deployment (restoreImage originalDeployment deployment)
  | None => restoreImage originalDeployment deployment = None
  end.
Proof.
  split; [apply setImage_framed |].
  unfold restoreImage. destruct (containersOf originalDeployment !! 0%nat) as [c |].
  - apply setImage_framed.
  - reflexivity.
Qed.

(** ** Requests, one by one *)

Lemma DeploymentsGet_ok (name : string) (w w1 : World) (d : Deployment.t) :
  DeploymentsGet cluster name w = (Ret (inl d), w1) →
  fault (cluster (served w)) = None ∧
  intrude (cluster (served w)) (deployments w) !! name = Some d ∧
  w1 = {| clock := clock w + latency (cluster (served w));
          deployments := intrude (cluster (served w)) (deployments w);
          served := S (served w);
          history := (ReqGet name, None) :: history w;
          stdout := stdout w |}.
Proof.
  unfold DeploymentsGet, arrive, record. cbn.
  destruct (fault (cluster (served w))); [discriminate |].
  destruct (intrude (cluster (served w)) (deployments w) !! name) eqn:E; [| discriminate].
  intros [= <- <-]. auto.
Qed.

Lemma attempt_read_failure (app : string) (op : Deployment.t → option Deployment.t)
    (w w1 : World) (err : error) :
  DeploymentsGet cluster app w = (Ret (inr err), w1) →
  deployAttempt cluster app op w
    = (Panic (PanicError (Errorf "Failed to get latest version of %s: %s"
                                 [OpString app; OpError (Some err)])), w1).
Proof. intros H. unfold deployAttempt. now rewrite (bind_Ret _ _ _ _ _ H). Qed.

Lemma attempt_write (app : string) (op : Deployment.t → option Deployment.t)
    (w w1 w2 : World) (result result' : Deployment.t) (updated : Deployment.t + error) :
  DeploymentsGet cluster app w = (Ret (inl result), w1) →
  op result = Some result' →
  DeploymentsUpdate cluster result' w1 = (Ret updated, w2) →
  deployAttempt cluster app op w
    = (Ret (match updated with inr updateErr => Some updateErr | inl _ => None end), w2).
Proof.
  intros Hget Hop Hupd. unfold deployAttempt.
  rewrite (bind_Ret _ _ _ _ _ Hget), Hop, (bind_Ret _ _ _ _ _ Hupd).
  now destruct updated.
Qed.

Lemma retryLoop_S (remaining : nat) (first : bool) (duration : N)
    (last : option error) (fn : M (option error)) (w : World) :
  retryLoop (S remaining) first duration last fn w =
    match fn (rested first duration w) with
    | (Ret None, w') => (Ret None, w')
    | (Ret (Some e), w') =>
        if IsConflict e then retryLoop remaining false duration (Some e) fn w'
        else (Ret (Some e), w')
    | (Panic v, w') => (Panic v, w')
    | (Starved, w') => (Starved, w')
    end.
Proof.
  cbn [retryLoop]. unfold rested.
  destruct first; unfold mbind, M_bind, mret, M_ret, timer; cbn;
    (destruct (fn _) as [[[e |] | v |] w']; [destruct (IsConflict e) | ..]; reflexivity).
Qed.

(** ** The baseline check *)

(** C6: when the snapshot has been read and the single health read that
    follows does not report all instances running without error, [main]
    stops with the panic that reports it.  Up to that point it has sent the
    read of the snapshot and the health query and no update, and the store
    holds what it held at the start apart from what other clients wrote
    meanwhile. *)
Theorem unhealthy_baseline_aborts_before_mutation
    (w w1 w2 : World) (originalDeployment : Deployment.t)
    (allRunning : bool) (err : option error) :
  DeploymentsGet cluster "redis" w = (Ret (inl originalDeployment), w1) →
  podContainersRunning cluster "redis" w1 = (Ret (allRunning, err), w2) →
  allRunning && isNil err = false →
  main cluster DefaultRetry w
    = (Panic (PanicText (Sprintf "Not all containers are currently running, or err: %s"
                                 [OpError err])), w2) ∧
  history w2 = (ReqList "app=redis", fault (cluster (S (served w))))
                 :: (ReqGet "redis", None) :: history w ∧
  accepted (history w2) = accepted (history w) ∧
  deployments w2
    = intrude (cluster (S (served w))) (intrude (cluster (served w)) (deployments w)) ∧
  (rival (cluster (served w)) = None → rival (cluster (S (served w))) = None →
   deployments w2 = deployments w).
Proof.
  intros Hget Hcheck Hbad.
  split.
  - unfold main. rewrite (bind_Ret _ _ _ _ _ Hget), (bind_Ret _ _ _ _ _ Hcheck).
    now rewrite Hbad.
  - destruct (DeploymentsGet_ok _ _ _ _ Hget) as (_ & _ & ->).
    rewrite podContainersRunning_eq in Hcheck. injection Hcheck as _ <-.
    unfold queried. cbn. repeat split.
    intros H0 H1. unfold intrude. now rewrite H0, H1.
Qed.

(** ** Failures that are not conflicts *)

Lemma retryLoop_skip (app : string) (op : Deployment.t → option Deployment.t)
    (duration : N) (k : nat) :
  ∀ (remaining : nat) (first : bool) (last : option error) (w wk : World),
    cycleStart cluster duration app op k first w = Some wk →
    (k < remaining)%nat →
    ∃ last',
      retryLoop remaining first duration last (deployAttempt cluster app op) w
        = retryLoop (remaining - k) true duration last' (deployAttempt cluster app op) wk.
Proof.
  induction k as [| k IH]; intros remaining first last w wk Hstart Hlt;
    (destruct remaining as [| remaining]; [lia |]).
  - cbn [cycleStart] in Hstart. injection Hstart as <-. exists last.
    rewrite Nat.sub_0_r, !retryLoop_S. reflexivity.
  - cbn [cycleStart] in Hstart. rewrite retryLoop_S.
    destruct (deployAttempt cluster app op (rested first duration w)) as [[[e |] | v |] w'];
      try discriminate.
    destruct (IsConflict e); [| discriminate].
    destruct (IH remaining false (Some e) w' wk Hstart ltac:(lia)) as [last' Hskip].
    exists last'. rewrite Hskip. reflexivity.
Qed.

(** C3, as the code has it: in whichever cycle of [deploy] it happens, the
    first or one that follows cycles rejected with a conflict, a failed read
    of any kind ends [deploy] at once in a panic that carries the error, and
    a write that fails with anything but a conflict ends it at once with
    that error as the returned value; in both cases the world is the one the
    failed request left, so nothing is retried. *)
Theorem deploy_failures_end_the_mutation
    (app : string) (op : Deployment.t → option Deployment.t) (w : World)
    (k : nat) (wk : World) :
  (k < Steps DefaultRetry)%nat →
  cycleStart cluster (Duration DefaultRetry) app op k true w = Some wk →
  (∀ err w1,
     DeploymentsGet cluster app wk = (Ret (inr err), w1) →
     deploy cluster DefaultRetry app op w
       = (Panic (PanicError (Errorf "Failed to get latest version of %s: %s"
                                    [OpString app; OpError (Some err)])), w1)) ∧
  (∀ result result' err w1 w2,
     DeploymentsGet cluster app wk = (Ret (inl result), w1) →
     op result = Some result' →
     DeploymentsUpdate cluster result' w1 = (Ret (inr err), w2) →
     IsConflict err = false →
     deploy cluster DefaultRetry app op w = (Ret (Some err), w2)).
Proof.
  intros Hlt Hstart. unfold deploy, RetryOnConflict.
  destruct (retryLoop_skip app op (Duration DefaultRetry) k (Steps DefaultRetry) true None
              w wk Hstart Hlt) as [last' ->].
  destruct (Steps DefaultRetry - k)%nat as [| remaining] eqn:Hleft; [lia |].
  split.
  - intros err w1 Hget. rewrite retryLoop_S. cbn [rested].
    now rewrite (attempt_read_failure _ _ _ _ _ Hget).
  - intros result result' err w1 w2 Hget Hop Hupd Hother.
    rewrite retryLoop_S. cbn [rested].
    rewrite (attempt_write _ _ _ _ _ _ _ _ Hget Hop Hupd). now rewrite Hother.
Qed.

(** ** The store under other clients' writes *)

Lemma intrude_lookup_other (app : string) (m : Moment) (store : gmap string Deployment.t) :
  targets app m = false → intrude m store !! app = store !! app.
Proof.
  unfold targets, intrude. destruct (rival m) as [[name g] |]; [| reflexivity].
  intros Hne. apply lookup_alter_ne. intros ->. now rewrite String.eqb_refl in Hne.
Qed.

Lemma intrude_lookup_target (app : string) (m : Moment) (store : gmap string Deployment.t)
    (d : Deployment.t) :
  rival m = None ∨ targets app m = true →
  store !! app = Some d →
  ∃ d', intrude m store !! app = Some d' ∧
        ObjectMeta.Name (Deployment.Meta d') = ObjectMeta.Name (Deployment.Meta d) ∧
        (targets app m = true →
         ObjectMeta.ResourceVersion (Deployment.Meta d')
           = ObjectMeta.ResourceVersion (Deployment.Meta d) + 1).
Proof.
  unfold targets, intrude. destruct (rival m) as [[name g] |].
  - intros [? | Heq] Hd; [discriminate |]. apply String.eqb_eq in Heq as ->.
    exists (bump (withSpec g d)). rewrite lookup_alter_eq, Hd. cbn. auto.
  - intros _ Hd. exists d. split; [exact Hd |]. split; [reflexivity | discriminate].
Qed.

Lemma intrude_is_Some (app : string) (m : Moment) (store : gmap string Deployment.t) :
  is_Some (store !! app) → is_Some (intrude m store !! app).
Proof.
  unfold intrude. destruct (rival m) as [[name g] |]; [| auto].
  intros [d Hd]. rewrite lookup_alter. case_decide as Hn; [| eauto].
  subst name. rewrite Hd. cbn. eauto.
Qed.

Lemma intrude_wellKeyed (m : Moment) (store : gmap string Deployment.t) :
  wellKeyed store → wellKeyed (intrude m store).
Proof.
  unfold wellKeyed, intrude. intros Hk. destruct (rival m) as [[name g] |]; [| exact Hk].
  intros key d. rewrite lookup_alter. case_decide as Hn.
  - subst name. destruct (store !! key) as [d0 |] eqn:E; cbn; [| discriminate].
    intros [= <-]. cbn. now apply Hk.
  - apply Hk.
Qed.

Lemma insert_wellKeyed (d : Deployment.t) (store : gmap string Deployment.t) :
  wellKeyed store →
  wellKeyed (<[ObjectMeta.Name (Deployment.Meta d) := bump d]> store).
Proof.
  unfold wellKeyed. intros Hk key d'. rewrite lookup_insert. case_decide as Hn.
  - intros [= <-]. exact Hn.
  - apply Hk.
Qed.

Lemma settle_add (from a b : nat) (store : gmap string Deployment.t) :
  settle cluster from (a + b) store = settle cluster (from + a) b (settle cluster from a store).
Proof.
  revert from store. induction a as [| a IH]; intros from store; cbn [settle Nat.add].
  - now rewrite Nat.add_0_r.
  - rewrite IH. now rewrite Nat.add_succ_r.
Qed.

Lemma settle_wellKeyed (from n : nat) (store : gmap string Deployment.t) :
  wellKeyed store → wellKeyed (settle cluster from n store).
Proof.
  revert from store. induction n as [| n IH]; intros from store Hk; cbn [settle]; [exact Hk |].
  apply IH. now apply intrude_wellKeyed.
Qed.

Lemma settle_is_Some (app : string) (from n : nat) (store : gmap string Deployment.t) :
  is_Some (store !! app) → is_Some (settle cluster from n store !! app).
Proof.
  revert from store. induction n as [| n IH]; intros from store Hs; cbn [settle]; [exact Hs |].
  apply IH. now apply intrude_is_Some.
Qed.

(** ** Reads and writes, case by case *)

Lemma DeploymentsGet_found (name : string) (w : World) (d : Deployment.t) :
  readable (cluster (served w)) = true →
  intrude (cluster (served w)) (deployments w) !! name = Some d →
  DeploymentsGet cluster name w
    = (Ret (inl d),
       {| clock := clock w + latency (cluster (served w));
          deployments := intrude (cluster (served w)) (deployments w);
          served := S (served w);
          history := (ReqGet name, None) :: history w;
          stdout := stdout w |}).
Proof.
  unfold readable, DeploymentsGet, arrive, record. cbn.
  destruct (fault (cluster (served w))); [discriminate |]. intros _ ->. reflexivity.
Qed.

Lemma DeploymentsUpdate_stale (d current : Deployment.t) (w : World) :
  intrude (cluster (served w)) (deployments w) !! ObjectMeta.Name (Deployment.Meta d)
    = Some current →
  fault (cluster (served w)) = Some Conflict ∨
  (fault (cluster (served w)) = None ∧
   ObjectMeta.ResourceVersion (Deployment.Meta current)
     ≠ ObjectMeta.ResourceVersion (Deployment.Meta d)) →
  DeploymentsUpdate cluster d w
    = (Ret (inr (StatusError Conflict)),
       {| clock := clock w + latency (cluster (served w));
          deployments := intrude (cluster (served w)) (deployments w);
          served := S (served w);
          history := (ReqUpdate d, Some Conflict) :: history w;
          stdout := stdout w |}).
Proof.
  unfold DeploymentsUpdate, arrive, record. cbn. intros Hcur [Hf | [Hf Hv]]; rewrite Hf.
  - reflexivity.
  - rewrite Hcur. apply N.eqb_neq in Hv. now rewrite Hv.
Qed.

Lemma DeploymentsUpdate_accepted (d current : Deployment.t) (w : World) :
  readable (cluster (served w)) = true →
  intrude (cluster (served w)) (deployments w) !! ObjectMeta.Name (Deployment.Meta d)
    = Some current →
  ObjectMeta.ResourceVersion (Deployment.Meta current)
    = ObjectMeta.ResourceVersion (Deployment.Meta d) →
  DeploymentsUpdate cluster d w
    = (Ret (inl (bump d)),
       {| clock := clock w + latency (cluster (served w));
          deployments := <[ObjectMeta.Name (Deployment.Meta d) := bump d]>
                           (intrude (cluster (served w)) (deployments w));
          served := S (served w);
          history := (ReqUpdate d, None) :: history w;
          stdout := stdout w |}).
Proof.
  unfold readable, DeploymentsUpdate, arrive, record. cbn.
  destruct (fault (cluster (served w))); [discriminate |]. intros _ Hcur Hv.
  rewrite Hcur. apply N.eqb_eq in Hv. now rewrite Hv.
Qed.

Lemma staleAt_cases (app : string) (m : Moment) :
  staleAt app m = true →
  fault m = Some Conflict ∨ (fault m = None ∧ targets app m = true).
Proof.
  unfold staleAt. destruct (fault m) as [[] |]; try discriminate; auto.
Qed.

(** One cycle that meets a conflict. *)
Lemma attempt_conflict (app : string) (op : Deployment.t → option Deployment.t) (w : World) :
  wellKeyed (deployments w) →
  is_Some (deployments w !! app) →
  keepsMeta op →
  definedOn cluster app op (served w) (deployments w) 1 →
  readable (cluster (served w)) = true →
  staleAt app (cluster (S (served w))) = true →
  ∃ w2,
    deployAttempt cluster app op w = (Ret (Some (StatusError Conflict)), w2) ∧
    deployments w2 = settle cluster (served w) 2 (deployments w) ∧
    served w2 = S (S (served w)) ∧
    accepted (history w2) = accepted (history w).
Proof.
  intros Hk Hs Hmeta Hdef Hread Hstale.
  destruct (intrude_is_Some app (cluster (served w)) _ Hs) as [result Hresult].
  destruct (Hdef 0%nat result ltac:(lia) Hresult) as [result' Hop].
  pose proof (Hmeta _ _ Hop) as Hsame.
  pose proof (intrude_wellKeyed (cluster (served w)) _ Hk _ _ Hresult) as Hname.
  pose proof (DeploymentsGet_found app w result Hread Hresult) as Hget.
  set (w1 := {| clock := clock w + latency (cluster (served w));
                deployments := intrude (cluster (served w)) (deployments w);
                served := S (served w);
                history := (ReqGet app, None) :: history w;
                stdout := stdout w |}) in *.
  assert (∃ current,
    intrude (cluster (served w1)) (deployments w1) !! ObjectMeta.Name (Deployment.Meta result')
      = Some current ∧
    (fault (cluster (served w1)) = Some Conflict ∨
     (fault (cluster (served w1)) = None ∧
      ObjectMeta.ResourceVersion (Deployment.Meta current)
        ≠ ObjectMeta.ResourceVersion (Deployment.Meta result')))) as (current & Hcur & Hwhy).
  { rewrite Hsame, Hname. cbn [served deployments w1].
    destruct (staleAt_cases _ _ Hstale) as [Hf | [Hf Ht]].
    - destruct (intrude_is_Some app (cluster (S (served w))) _ (ex_intro _ _ Hresult))
        as [current Hcur].
      exists current. split; [exact Hcur | now left].
    - destruct (intrude_lookup_target app (cluster (S (served w))) _ result (or_intror Ht) Hresult)
        as (current & Hcur & _ & Hv).
      exists current. split; [exact Hcur |]. right. split; [exact Hf |].
      rewrite (Hv Ht). lia. }
  pose proof (DeploymentsUpdate_stale _ _ _ Hcur Hwhy) as Hupd.
  eexists. split.
  - exact (attempt_write app op _ _ _ _ _ _ Hget Hop Hupd).
  - cbn. repeat split.
Qed.

(** One cycle whose update is accepted. *)
Lemma attempt_lands (app : string) (op : Deployment.t → option Deployment.t) (w : World) :
  wellKeyed (deployments w) →
  is_Some (deployments w !! app) →
  keepsMeta op →
  definedOn cluster app op (served w) (deployments w) 1 →
  lands cluster app (served w) = true →
  ∃ latest latest' w2,
    deployAttempt cluster app op w = (Ret None, w2) ∧
    settle cluster (served w) 1 (deployments w) !! app = Some latest ∧
    op latest = Some latest' ∧
    deployments w2
      = <[app := bump latest']> (settle cluster (served w) 2 (deployments w)) ∧
    served w2 = S (S (served w)) ∧
    accepted (history w2) = latest' :: accepted (history w).
Proof.
  intros Hk Hs Hmeta Hdef Hlands. unfold lands in Hlands.
  apply andb_prop in Hlands as [Hlands Hfree]. apply andb_prop in Hlands as [Hread Hwrite].
  apply negb_true_iff in Hfree.
  destruct (intrude_is_Some app (cluster (served w)) _ Hs) as [result Hresult].
  destruct (Hdef 0%nat result ltac:(lia) Hresult) as [result' Hop].
  pose proof (Hmeta _ _ Hop) as Hsame.
  pose proof (intrude_wellKeyed (cluster (served w)) _ Hk _ _ Hresult) as Hname.
  pose proof (DeploymentsGet_found app w result Hread Hresult) as Hget.
  set (w1 := {| clock := clock w + latency (cluster (served w));
                deployments := intrude (cluster (served w)) (deployments w);
                served := S (served w);
                history := (ReqGet app, None) :: history w;
                stdout := stdout w |}) in *.
  assert (intrude (cluster (served w1)) (deployments w1)
            !! ObjectMeta.Name (Deployment.Meta result') = Some result) as Hcur.
  { rewrite Hsame, Hname. cbn [served deployments w1]. now rewrite intrude_lookup_other. }
  assert (ObjectMeta.ResourceVersion (Deployment.Meta result)
          = ObjectMeta.ResourceVersion (Deployment.Meta result')) as Hver by now rewrite Hsame.
  pose proof (DeploymentsUpdate_accepted result' result w1 Hwrite Hcur Hver) as Hupd.
  exists result, result'. eexists. split.
  - exact (attempt_write app op _ _ _ _ _ _ Hget Hop Hupd).
  - cbn [settle deployments served history accepted omap w1].
    rewrite Hsame, Hname. repeat split; try reflexivity; assumption.
Qed.

(** ** The retry *)

Lemma rested_fields (first : bool) (duration : N) (w : World) :
  deployments (rested first duration w) = deployments w ∧
  served (rested first duration w) = served w ∧
  history (rested first duration w) = history w ∧
  stdout (rested first duration w) = stdout w.
Proof. destruct first; cbn; auto. Qed.

Lemma definedOn_first (app : string) (op : Deployment.t → option Deployment.t)
    (from k : nat) (store : gmap string Deployment.t) :
  definedOn cluster app op from store (S k) → definedOn cluster app op from store 1.
Proof. intros Hdef j d Hj. apply Hdef. lia. Qed.

Lemma definedOn_rest (app : string) (op : Deployment.t → option Deployment.t)
    (from k : nat) (store : gmap string Deployment.t) :
  definedOn cluster app op from store (S k) →
  definedOn cluster app op (S (S from)) (settle cluster from 2 store) k.
Proof.
  intros Hdef j d Hj Hd. apply (Hdef (S j) d); [lia |].
  replace (2 * S j + 1)%nat with (2 + (2 * j + 1))%nat by lia.
  rewrite settle_add. replace (from + 2)%nat with (S (S from)) by lia. exact Hd.
Qed.

Lemma retry_lands_after_conflicts (app : string) (op : Deployment.t → option Deployment.t)
    (duration : N) (k : nat) :
  ∀ (remaining : nat) (first : bool) (last : option error) (w : World),
    (k < remaining)%nat →
    wellKeyed (deployments w) →
    is_Some (deployments w !! app) →
    keepsMeta op →
    definedOn cluster app op (served w) (deployments w) (S k) →
    conflicts cluster app (served w) k = true →
    lands cluster app (served w + 2 * k) = true →
    ∃ latest latest' w',
      retryLoop remaining first duration last (deployAttempt cluster app op) w
        = (Ret None, w') ∧
      settle cluster (served w) (2 * k + 1) (deployments w) !! app = Some latest ∧
      op latest = Some latest' ∧
      deployments w'
        = <[app := bump latest']> (settle cluster (served w) (2 * k + 2) (deployments w)) ∧
      served w' = (served w + 2 * (k + 1))%nat ∧
      accepted (history w') = latest' :: accepted (history w).
Proof.
  induction k as [| k IH]; intros remaining first last w Hlt Hk Hs Hmeta Hdef Hconf Hlands;
    (destruct remaining as [| remaining]; [lia |]);
    rewrite retryLoop_S;
    destruct (rested_fields first duration w) as (Hd & Hn & Hh & _).
  - rewrite Nat.add_0_r in Hlands.
    destruct (attempt_lands app op (rested first duration w))
      as (latest & latest' & w2 & Ha & Hl & Hop & Hst & Hsv & Hacc).
    { now rewrite Hd. } { now rewrite Hd. } { exact Hmeta. }
    { rewrite Hd, Hn. exact Hdef. } { now rewrite Hn. }
    rewrite Hd, Hn in *. rewrite Hh in Hacc.
    exists latest, latest', w2. rewrite Ha. cbn [Nat.mul Nat.add].
    repeat split; try assumption. lia.
  - cbn [conflicts] in Hconf.
    apply andb_prop in Hconf as [Hconf Hrest]. apply andb_prop in Hconf as [Hread Hstale].
    destruct (attempt_conflict app op (rested first duration w)) as (w2 & Ha & Hst & Hsv & Hacc).
    { now rewrite Hd. } { now rewrite Hd. } { exact Hmeta. }
    { rewrite Hd, Hn. exact (definedOn_first _ _ _ _ _ Hdef). }
    { now rewrite Hn. } { now rewrite Hn. }
    rewrite Hd, Hn in *. rewrite Hh in Hacc. rewrite Ha. cbn [IsConflict].
    destruct (IH remaining false (Some (StatusError Conflict)) w2)
      as (latest & latest' & w' & Hrun & Hl & Hop & Hst' & Hsv' & Hacc').
    { lia. }
    { rewrite Hst. now apply settle_wellKeyed. }
    { rewrite Hst. now apply settle_is_Some. }
    { exact Hmeta. }
    { rewrite Hst, Hsv. exact (definedOn_rest _ _ _ _ _ Hdef). }
    { now rewrite Hsv. }
    { rewrite Hsv. replace (S (S (served w)) + 2 * k)%nat with (served w + 2 * S k)%nat by lia.
      exact Hlands. }
    exists latest, latest', w'. rewrite Hrun. split; [reflexivity |].
    rewrite Hst, Hsv in *.
    replace (S (S (served w))) with (served w + 2)%nat in * by lia.
    rewrite <- settle_add in Hl, Hst'.
    replace (2 * S k + 1)%nat with (2 + (2 * k + 1))%nat by lia.
    replace (2 * S k + 2)%nat with (2 + (2 * k + 2))%nat by lia.
    repeat split; try assumption; [lia | congruence].
Qed.

Lemma retry_exhausted (app : string) (op : Deployment.t → option Deployment.t) (duration : N) :
  ∀ (remaining : nat) (first : bool) (last : option error) (w : World),
    wellKeyed (deployments w) →
    is_Some (deployments w !! app) →
    keepsMeta op →
    definedOn cluster app op (served w) (deployments w) remaining →
    conflicts cluster app (served w) remaining = true →
    ∃ w',
      retryLoop remaining first duration last (deployAttempt cluster app op) w
        = (Ret (match remaining with
                | O => last
                | S _ => Some (StatusError Conflict)
                end), w') ∧
      deployments w' = settle cluster (served w) (2 * remaining) (deployments w) ∧
      served w' = (served w + 2 * remaining)%nat ∧
      accepted (history w') = accepted (history w).
Proof.
  induction remaining as [| remaining IH]; intros first last w Hk Hs Hmeta Hdef Hconf.
  - exists w. cbn. repeat split. lia.
  - rewrite retryLoop_S. destruct (rested_fields first duration w) as (Hd & Hn & Hh & _).
    cbn [conflicts] in Hconf.
    apply andb_prop in Hconf as [Hconf Hrest]. apply andb_prop in Hconf as [Hread Hstale].
    destruct (attempt_conflict app op (rested first duration w)) as (w2 & Ha & Hst & Hsv & Hacc).
    { now rewrite Hd. } { now rewrite Hd. } { exact Hmeta. }
    { rewrite Hd, Hn. exact (definedOn_first _ _ _ _ _ Hdef). }
    { now rewrite Hn. } { now rewrite Hn. }
    rewrite Hd, Hn in *. rewrite Hh in Hacc. rewrite Ha. cbn [IsConflict].
    destruct (IH false (Some (StatusError Conflict)) w2) as (w' & Hrun & Hst' & Hsv' & Hacc').
    { rewrite Hst. now apply settle_wellKeyed. }
    { rewrite Hst. now apply settle_is_Some. }
    { exact Hmeta. }
    { rewrite Hst, Hsv. exact (definedOn_rest _ _ _ _ _ Hdef). }
    { now rewrite Hsv. }
    exists w'. split.
    + rewrite Hrun. now destruct remaining.
    + rewrite Hst, Hsv in *.
      replace (S (S (served w))) with (served w + 2)%nat in * by lia.
      rewrite <- settle_add in Hst'.
      replace (2 * S remaining)%nat with (2 + 2 * remaining)%nat by lia.
      repeat split; try assumption; [lia | congruence].
Qed.

(** C4, as the retry has it: [deploy] under conflicts, for every transform
    that leaves the metadata alone and does not panic on the descriptors
    read, the two transforms of [main] among them.  When the first [k]
    read-transform-write cycles are rejected with a conflict, [k] being
    smaller than the number of attempts allowed, and the next cycle is not
    disturbed, [deploy] returns without error after [k + 1] reads and
    [k + 1] updates: the store accepted exactly one update, the transform
    applied to the descriptor that the last read found, and holds it.  When
    as many cycles as there are attempts allowed are rejected with a
    conflict, [deploy] returns a conflict error after that many cycles, and
    the store accepted no update. *)
Theorem deploy_retries_on_conflict
    (app : string) (op : Deployment.t → option Deployment.t) (w : World) :
  wellKeyed (deployments w) →
  is_Some (deployments w !! app) →
  keepsMeta op →
  (∀ k, (k < Steps DefaultRetry)%nat →
     conflicts cluster app (served w) k = true →
     lands cluster app (served w + 2 * k) = true →
     definedOn cluster app op (served w) (deployments w) (S k) →
     ∃ latest latest' w',
       deploy cluster DefaultRetry app op w = (Ret None, w') ∧
       settle cluster (served w) (2 * k + 1) (deployments w) !! app = Some latest ∧
       op latest = Some latest' ∧
       deployments w'
         = <[app := bump latest']> (settle cluster (served w) (2 * k + 2) (deployments w)) ∧
       served w' = (served w + 2 * (k + 1))%nat ∧
       accepted (history w') = latest' :: accepted (history w)) ∧
  ((0 < Steps DefaultRetry)%nat →
   conflicts cluster app (served w) (Steps DefaultRetry) = true →
   definedOn cluster app op (served w) (deployments w) (Steps DefaultRetry) →
   ∃ e w',
     deploy cluster DefaultRetry app op w = (Ret (Some e), w') ∧
     IsConflict e = true ∧
     deployments w' = settle cluster (served w) (2 * Steps DefaultRetry) (deployments w) ∧
     served w' = (served w + 2 * Steps DefaultRetry)%nat ∧
     accepted (history w') = accepted (history w)).
Proof.
  intros Hk Hs Hmeta. unfold deploy, RetryOnConflict. split.
  - intros k Hlt Hconf Hlands Hdef. now apply retry_lands_after_conflicts.
  - intros Hpos Hconf Hdef.
    destruct (retry_exhausted app op (Duration DefaultRetry) (Steps DefaultRetry) true None w
                Hk Hs Hmeta Hdef Hconf) as (w' & Hrun & Hrest).
    exists (StatusError Conflict), w'. rewrite Hrun.
    destruct (Steps DefaultRetry); [lia |]. split; [reflexivity |]. split; [reflexivity | exact Hrest].
Qed.

(** ** What a retry can end with *)

Lemma retryLoop_outcome (I : World → Prop) (R : Result (option error) → World → Prop)
    (duration : N) (fn : M (option error)) :
  (∀ w d, I w → I (snd (timer d w))) →
  (∀ w, I w → I (snd (fn w)) ∧ R (fst (fn w)) (snd (fn w))) →
  ∀ (remaining : nat) (first : bool) (last : option error) (w : World),
    I w →
    I (snd (retryLoop remaining first duration last fn w)) ∧
    (R (fst (retryLoop remaining first duration last fn w))
       (snd (retryLoop remaining first duration last fn w)) ∨
     (remaining = 0%nat ∧ retryLoop remaining first duration last fn w = (Ret last, w)) ∨
     ∃ e, IsConflict e = true ∧
          fst (retryLoop remaining first duration last fn w) = Ret (Some e)).
Proof.
  intros Htimer Hfn. induction remaining as [| remaining IH]; intros first last w HI.
  - cbn. auto.
  - rewrite retryLoop_S.
    assert (I (rested first duration w)) as HI0.
    { unfold rested. destruct first; [exact HI | now apply Htimer]. }
    destruct (Hfn _ HI0) as [HI1 HR].
    destruct (fn (rested first duration w)) as [[[e |] | v |] w1]; cbn [fst snd] in *; auto.
    destruct (IsConflict e) eqn:He; cbn [fst snd]; auto.
    destruct (IH false (Some e) w1 HI1) as [HI2 [HR2 | [[-> Hout] | Hex]]];
      [auto | | auto].
    split; [exact HI2 |]. right. right. exists e. rewrite Hout. auto.
Qed.

Lemma DeploymentsGet_inv (name : string) (w : World) :
  deployments (snd (DeploymentsGet cluster name w))
    = intrude (cluster (served w)) (deployments w) ∧
  ((∃ reason, fst (DeploymentsGet cluster name w) = Ret (inr (StatusError reason))) ∨
   (∃ d, fst (DeploymentsGet cluster name w) = Ret (inl d) ∧
         intrude (cluster (served w)) (deployments w) !! name = Some d)).
Proof.
  unfold DeploymentsGet, arrive, record. cbn.
  destruct (fault (cluster (served w))); cbn; [eauto |].
  destruct (intrude (cluster (served w)) (deployments w) !! name); cbn; eauto.
Qed.

Lemma DeploymentsUpdate_inv (d : Deployment.t) (w : World) :
  (∃ reason, fst (DeploymentsUpdate cluster d w) = Ret (inr (StatusError reason)) ∧
     deployments (snd (DeploymentsUpdate cluster d w))
       = intrude (cluster (served w)) (deployments w)) ∨
  (fst (DeploymentsUpdate cluster d w) = Ret (inl (bump d)) ∧
   deployments (snd (DeploymentsUpdate cluster d w))
     = <[ObjectMeta.Name (Deployment.Meta d) := bump d]>
         (intrude (cluster (served w)) (deployments w))).
Proof.
  unfold DeploymentsUpdate, arrive, record. cbn.
  destruct (fault (cluster (served w))); cbn; [eauto |].
  destruct (intrude (cluster (served w)) (deployments w) !! _); cbn; [| eauto].
  destruct (N.eqb _ _); cbn; eauto.
Qed.

Lemma attempt_outcome (app : string) (op : Deployment.t → option Deployment.t) (w : World) :
  wellKeyed (deployments w) →
  wellKeyed (deployments (snd (deployAttempt cluster app op w))) ∧
  attemptPost app op (fst (deployAttempt cluster app op w))
                     (snd (deployAttempt cluster app op w)).
Proof.
  intros Hk. unfold deployAttempt, mbind, M_bind.
  destruct (DeploymentsGet_inv app w) as [Hstore Hres].
  pose proof (intrude_wellKeyed (cluster (served w)) _ Hk) as Hk1.
  destruct (DeploymentsGet cluster app w) as [got w1]. cbn [fst snd] in *.
  destruct Hres as [[reason ->] | (result & -> & Hresult)].
  - cbn. rewrite Hstore. split; [exact Hk1 |]. right. eauto.
  - destruct (op result) as [result' |] eqn:Hop.
    + destruct (DeploymentsUpdate_inv result' w1) as [(reason & Hr & Hs) | [Hr Hs]];
        destruct (DeploymentsUpdate cluster result' w1) as [updated w2];
        cbn [fst snd] in *; subst updated; cbn; rewrite Hs, Hstore.
      * split; [now apply intrude_wellKeyed | eauto].
      * split; [now apply insert_wellKeyed, intrude_wellKeyed |].
        exists result, result'. split; [exact (Hk1 _ _ Hresult) |]. split; [exact Hop |].
        apply lookup_insert_eq.
    + cbn. rewrite Hstore. split; [exact Hk1 | now left].
Qed.

Lemma deploy_outcome (app : string) (op : Deployment.t → option Deployment.t) (w : World) :
  wellKeyed (deployments w) →
  wellKeyed (deployments (snd (deploy cluster DefaultRetry app op w))) ∧
  (attemptPost app op (fst (deploy cluster DefaultRetry app op w))
                      (snd (deploy cluster DefaultRetry app op w)) ∨
   (Steps DefaultRetry = 0%nat ∧ deploy cluster DefaultRetry app op w = (Ret None, w)) ∨
   fst (deploy cluster DefaultRetry app op w) = Ret (Some (StatusError Conflict))).
Proof.
  intros Hk. unfold deploy, RetryOnConflict.
  destruct (retryLoop_outcome (λ w0, wellKeyed (deployments w0)) (attemptPost app op)
              (Duration DefaultRetry) (deployAttempt cluster app op)
              (λ _ _ H, H) (attempt_outcome app op)
              (Steps DefaultRetry) true None w Hk) as [HI [HR | [Hzero | (e & He & Hout)]]];
    (split; [exact HI |]); auto.
  right. right. rewrite Hout. destruct e as [[] |]; try discriminate. reflexivity.
Qed.

(** ** The image in the store *)

Lemma intrude_image (m : Moment) (store : gmap string Deployment.t) (app : string) :
  (∀ name g spec, rival m = Some (name, g) → specImage (g spec) = specImage spec) →
  intrude m store !! app ≫= imageOf = store !! app ≫= imageOf.
Proof.
  intros Hkeep. unfold intrude. destruct (rival m) as [[name g] |] eqn:Hr; [| reflexivity].
  rewrite lookup_alter. case_decide as Hn; [| reflexivity].
  subst name. destruct (store !! app) as [d |]; [| reflexivity].
  cbn. unfold imageOf. cbn. now apply (Hkeep app).
Qed.

Lemma afterPolls_store (app name : string) (n : nat) (w : World) :
  imagePreserving cluster →
  wellKeyed (deployments w) →
  wellKeyed (deployments (afterPolls cluster app n w)) ∧
  storedImage (afterPolls cluster app n w) name = storedImage w name.
Proof.
  intros Hkeep. revert w. induction n as [| n IH]; intros w Hk; [now split |].
  cbn [afterPolls].
  destruct (IH (polled cluster app w)) as [Hk' Himg].
  { cbn. now apply intrude_wellKeyed. }
  split; [exact Hk' |]. rewrite Himg. unfold storedImage, polled. cbn [deployments].
  apply intrude_image. intros name' g spec. apply Hkeep.
Qed.

Lemma restoreImage_image (originalDeployment result result' : Deployment.t) :
  restoreImage originalDeployment result = Some result' →
  Deployment.Meta result' = Deployment.Meta result ∧
  is_Some (imageOf originalDeployment) ∧
  imageOf (bump result') = imageOf originalDeployment.
Proof.
  unfold restoreImage, imageOf, specImage. fold (containersOf originalDeployment).
  destruct (containersOf originalDeployment !! 0%nat) as [c |]; [| discriminate].
  intros Hset. pose proof (setImage_framed (Container.Image c) result) as Hframe.
  rewrite Hset in Hframe. destruct Hframe as (Hmeta & _ & _ & _ & c0 & rest & _ & Hc).
  split; [exact Hmeta |]. split; [cbn; eauto |].
  cbn [bump Deployment.Spec]. fold (containersOf result'). now rewrite Hc.
Qed.

(** Once the rollback has been written the store carries the image of the
    copy taken at the start. *)
Lemma rollback_written (originalDeployment : Deployment.t) (w : World) :
  (0 < Steps DefaultRetry)%nat →
  wellKeyed (deployments w) →
  fst (deploy cluster DefaultRetry "redis" (restoreImage originalDeployment) w) = Ret None →
  is_Some (imageOf originalDeployment) ∧
  storedImage (snd (deploy cluster DefaultRetry "redis" (restoreImage originalDeployment) w))
              "redis"
    = imageOf originalDeployment.
Proof.
  intros Hpos Hk Hnil.
  destruct (deploy_outcome "redis" (restoreImage originalDeployment) w Hk)
    as [_ [Hpost | [[Hz _] | Hc]]]; [| lia | congruence].
  rewrite Hnil in Hpost. destruct Hpost as (result & result' & Hname & Hop & Hstored).
  destruct (restoreImage_image _ _ _ Hop) as (Hmeta & Hsome & Himg).
  split; [exact Hsome |]. unfold storedImage.
  rewrite Hmeta, Hname in Hstored. rewrite Hstored. exact Himg.
Qed.

(** ** The rollout as a whole *)

Lemma bind_Starved {A B} (m : M A) (k : A → M B) (w w1 : World) :
  m w = (Starved, w1) → (m ≫= k) w = (Starved, w1).
Proof. intros H. unfold mbind, M_bind. now rewrite H. Qed.

(** Past a [deploy] whose error would make [main] panic, a run that ends
    normally or with the timeout panic has seen that [deploy] succeed. *)
Lemma deploy_or_panic (app : string) (op : Deployment.t → option Deployment.t)
    (k : M unit) (w w' : World) (r : Result unit) :
  (0 < Steps DefaultRetry)%nat →
  wellKeyed (deployments w) →
  (deploy cluster DefaultRetry app op ≫= λ err,
     match err with
     | Some e => panic (PanicError e)
     | None => k
     end) w = (r, w') →
  r = Ret tt ∨ r = Panic (PanicError timeoutErr) →
  ∃ w3, deploy cluster DefaultRetry app op w = (Ret None, w3) ∧
        wellKeyed (deployments w3) ∧ k w3 = (r, w').
Proof.
  intros Hpos Hk Hrun Hr.
  destruct (deploy_outcome app op w Hk) as [Hk3 Hout].
  destruct (deploy cluster DefaultRetry app op w) as [[[e |] | v |] w3] eqn:Hd;
    cbn [fst snd] in *.
  - rewrite (bind_Ret _ _ _ _ _ Hd) in Hrun. unfold panic in Hrun.
    injection Hrun as <- <-. exfalso.
    destruct Hr as [Hr | Hr]; [discriminate |]. injection Hr as ->.
    destruct Hout as [[reason Hreason] | [[_ Hnil] | Hc]]; discriminate.
  - rewrite (bind_Ret _ _ _ _ _ Hd) in Hrun. eauto.
  - rewrite (bind_Panic _ _ _ _ _ Hd) in Hrun. injection Hrun as <- <-. exfalso.
    destruct Hr as [Hr | Hr]; [discriminate |]. injection Hr as ->.
    destruct Hout as [[Hv | [err Hv]] | [[_ Hnil] | Hc]]; discriminate.
  - exfalso. destruct Hout as [[] | [[_ Hnil] | Hc]]; discriminate.
Qed.

Lemma deploy_never_starves (app : string) (op : Deployment.t → option Deployment.t) (w : World) :
  fst (deploy cluster DefaultRetry app op w) ≠ Starved.
Proof.
  unfold deploy, RetryOnConflict.
  destruct (retryLoop_outcome (λ _, True) (λ r _, r ≠ Starved)
              (Duration DefaultRetry) (deployAttempt cluster app op)
              (λ _ _ H, H)) with (remaining := Steps DefaultRetry) (first := true)
              (last := @None error) (w := w) as [_ [HR | [[_ Hnil] | (e & _ & Hout)]]];
    [| exact I | exact HR | rewrite Hnil; discriminate | rewrite Hout; discriminate].
  intros w0 _. split; [exact I |].
  unfold deployAttempt, mbind, M_bind.
  destruct (DeploymentsGet_inv app w0) as [_ Hres].
  destruct (DeploymentsGet cluster app w0) as [got w1]. cbn [fst snd] in *.
  destruct Hres as [[reason ->] | (result & -> & _)]; [discriminate |].
  destruct (op result) as [result' |]; [| discriminate].
  destruct (DeploymentsUpdate_inv result' w1) as [(reason & Hr & _) | [Hr _]];
    destruct (DeploymentsUpdate cluster result' w1) as [updated w2];
    cbn [fst snd] in *; subst updated; discriminate.
Qed.

(** [main] always comes to an end: the polling budget of the model is never
    used up. *)
Lemma main_never_starves (w : World) :
  fst (main cluster DefaultRetry w) ≠ Starved.
Proof.
  unfold main.
  assert (∀ (app : string) (op : Deployment.t → option Deployment.t) (k : M unit) (w0 : World),
            (∀ w3, fst (k w3) ≠ Starved) →
            fst ((deploy cluster DefaultRetry app op ≫= λ err,
                    match err with
                    | Some e => panic (PanicError e)
                    | None => k
                    end) w0) ≠ Starved) as Hdeploy.
  { intros app op k w0 Hcont.
    pose proof (deploy_never_starves app op w0) as Hns.
    destruct (deploy cluster DefaultRetry app op w0) as [[[e |] | v |] w3] eqn:Hd;
      cbn [fst snd] in *.
    - rewrite (bind_Ret _ _ _ _ _ Hd). discriminate.
    - rewrite (bind_Ret _ _ _ _ _ Hd). apply Hcont.
    - rewrite (bind_Panic _ _ _ _ _ Hd). discriminate.
    - congruence. }
  destruct (DeploymentsGet_inv "redis" w) as [_ Hres].
  destruct (DeploymentsGet cluster "redis" w) as [got w1] eqn:Hget. cbn [fst snd] in *.
  destruct Hres as [[reason ->] | (d & -> & _)]; rewrite (bind_Ret _ _ _ _ _ Hget);
    [discriminate |].
  rewrite (bind_Ret _ _ _ _ _ (podContainersRunning_eq "redis" w1)).
  destruct (verdict "redis" (cluster (served w1))) as [allRunning err].
  destruct (negb (allRunning && isNil err)); [discriminate |].
  apply Hdeploy. intros w3.
  destruct (waitFor_run "redis" w3) as (n & _ & _ & Hwait & _).
  rewrite (bind_Ret _ _ _ _ _ Hwait).
  assert (∀ w4,
     fst ((deploy cluster DefaultRetry "redis" (restoreImage d) ≫= λ err,
        match err with
        | Some e => panic (PanicError e)
        | None =>
            err ← waitForPodContainersRunning cluster "redis";
            match err with
            | Some e => panic (PanicError e)
            | None => println (Literal "Rolled back successfully!")
            end
        end) w4) ≠ Starved) as Hback.
  { intros w4. apply Hdeploy. intros w5.
    destruct (waitFor_run "redis" w5) as (n' & _ & _ & Hwait' & _).
    rewrite (bind_Ret _ _ _ _ _ Hwait').
    destruct (fst (verdict "redis" (cluster (served w5 + n')))); discriminate. }
  destruct (fst (verdict "redis" (cluster (served w3 + n))));
    erewrite bind_Ret by reflexivity; apply Hback.
Qed.

(** ** More on the health check and the wait *)

Lemma rangeItems_skips_statusless (items : list Pod.t) :
  rangeItems items = rangeItems (List.filter hasStatuses items).
Proof.
  induction items as [| item rest IH]; [reflexivity |].
  cbn [List.filter]. unfold hasStatuses at 1.
  destruct (PodStatus.ContainerStatuses (Pod.Status item)) as [| status statuses] eqn:E.
  - cbn [rangeItems]. rewrite E. cbn [rangeStatuses]. exact IH.
  - cbn [rangeItems]. rewrite E, IH. reflexivity.
Qed.

(** X1: a listed pod that reports no container status does not count
    against the health check: when the query succeeds, the answer is the one
    the pods that do report statuses give, and it is [true] when no listed
    pod reports any. *)
Theorem statusless_pods_count_as_running (app : string) (w : World) :
  fault (cluster (served w)) = None →
  reportsConverged cluster app w
    = rangeItems (List.filter hasStatuses (instances cluster app w)) ∧
  (List.filter hasStatuses (instances cluster app w) = [] →
   podContainersRunning cluster app w = (Ret (true, None), queried cluster app w)).
Proof.
  intros Hfault.
  assert (verdict app (cluster (served w)) = (rangeItems (instances cluster app w), None)) as Hv
    by (unfold verdict, instances; now rewrite Hfault).
  split.
  - unfold reportsConverged. rewrite podContainersRunning_eq, Hv.
    apply rangeItems_skips_statusless.
  - intros Hnone. rewrite podContainersRunning_eq, Hv, rangeItems_skips_statusless, Hnone.
    reflexivity.
Qed.

Lemma clock_afterPolls_lower (app : string) (n : nat) (w : World) :
  clock w + N.of_nat n * deployRunningCheckInterval ≤ clock (afterPolls cluster app n w).
Proof.
  revert w. induction n as [| n IH]; intros w; cbn [afterPolls]; [lia |].
  specialize (IH (polled cluster app w)). pose proof (clock_polled app w).
  rewrite Nat2N.inj_succ, N.mul_succ_l. lia.
Qed.

Lemma clock_afterPolls_with (app : string) (n : nat) :
  ∀ (w : World) (k : nat),
    (k < n)%nat →
    clock w + N.of_nat n * deployRunningCheckInterval + latency (cluster (served w + k))
      ≤ clock (afterPolls cluster app n w).
Proof.
  induction n as [| n IH]; intros w k Hk; [lia |].
  cbn [afterPolls]. rewrite Nat2N.inj_succ, N.mul_succ_l. destruct k as [| k].
  - pose proof (clock_afterPolls_lower app n (polled cluster app w)) as Hlow.
    rewrite Nat.add_0_r. cbn [polled clock] in Hlow. lia.
  - specialize (IH (polled cluster app w) k ltac:(lia)).
    cbn [polled served] in IH.
    replace (S (served w) + k)%nat with (served w + S k)%nat in IH by lia.
    pose proof (clock_polled app w) as Hc. cbn [polled clock] in IH, Hc. lia.
Qed.

Lemma afterPolls_reads_only (app : string) (n : nat) (w : World) :
  accepted (history (afterPolls cluster app n w)) = accepted (history w) ∧
  deployments (afterPolls cluster app n w) = settle cluster (served w) n (deployments w) ∧
  ∃ added,
    history (afterPolls cluster app n w) = (added ++ history w)%list ∧
    length added = n ∧
    ∀ entry, In entry added → fst entry = ReqList ("app=" +:+ app).
Proof.
  revert w. induction n as [| n IH]; intros w; cbn [afterPolls settle].
  - split; [reflexivity |]. split; [reflexivity |]. exists []. repeat split. intros ? [].
  - destruct (IH (polled cluster app w)) as (Hacc & Hstore & added & Hhist & Hlen & Hall).
    split; [rewrite Hacc; reflexivity |]. split; [rewrite Hstore; reflexivity |].
    exists (added ++ [(ReqList ("app=" +:+ app), fault (cluster (served w)))])%list.
    split; [| split].
    + rewrite Hhist. cbn [polled history]. now rewrite <- List.app_assoc.
    + rewrite List.length_app, Hlen. cbn. lia.
    + intros entry Hin. apply List.in_app_or in Hin as [Hin | [<- | []]]; [now apply Hall | reflexivity].
Qed.

(** X2: every wait ends, with success or with the timeout error, after at
    least one and at most six health queries.  It never returns before one
    check interval has passed; its last turn starts no later than the
    deadline, so it returns no later than the deadline plus one check
    interval plus the time the last query took; and the timeout error is
    never returned before the deadline is behind. *)
Theorem wait_is_bounded (app : string) (w : World) :
  (fst (waitForPodContainersRunning cluster app w) = Ret None ∨
   fst (waitForPodContainersRunning cluster app w) = Ret (Some timeoutErr)) ∧
  (served w < served (snd (waitForPodContainersRunning cluster app w)) ≤ served w + 6)%nat ∧
  clock w + deployRunningCheckInterval
    ≤ clock (snd (waitForPodContainersRunning cluster app w)) ∧
  clock (snd (waitForPodContainersRunning cluster app w))
    ≤ clock w + deployRunningThreshold + deployRunningCheckInterval
      + latency (cluster (pred (served (snd (waitForPodContainersRunning cluster app w))))) ∧
  (fst (waitForPodContainersRunning cluster app w) = Ret (Some timeoutErr) →
   clock w + deployRunningThreshold
     < clock (snd (waitForPodContainersRunning cluster app w))).
Proof.
  destruct (waitFor_run app w) as (n & Hn & Hbefore & Hrun & Hend).
  rewrite Hrun. cbn [fst snd]. rewrite served_afterPolls.
  assert (pollBudget = 6%nat) as Hsix by reflexivity.
  split; [destruct (fst (verdict app (cluster (served w + n)))); auto |].
  split; [lia |]. split; [| split].
  - pose proof (clock_afterPolls_lower app (S n) w) as Hlow.
    rewrite Nat2N.inj_succ, N.mul_succ_l in Hlow. lia.
  - replace (pred (served w + S n)) with (served w + n)%nat by lia.
    rewrite afterPolls_S. cbn [polled clock]. rewrite served_afterPolls.
    assert (clock (afterPolls cluster app n w) ≤ clock w + deployRunningThreshold) as Hstart.
    { destruct n as [| n]; [cbn [afterPolls]; lia |]. apply (Hbefore n). lia. }
    lia.
  - destruct (fst (verdict app (cluster (served w + n)))); [discriminate |].
    intros _. now apply Hend.
Qed.

(** X3: as soon as one of the first five health queries of a wait takes any
    time at all, the wait makes at most five queries: the fifth poll then
    ends after the deadline, so a sixth turn is never taken. *)
Theorem wait_makes_at_most_five_queries (app : string) (w : World) :
  (∃ k, (k < 5)%nat ∧ 0 < latency (cluster (served w + k))) →
  (served w < served (snd (waitForPodContainersRunning cluster app w)) ≤ served w + 5)%nat.
Proof.
  intros (k & Hk & Hlat).
  destruct (waitFor_run app w) as (n & Hn & Hbefore & Hrun & _).
  rewrite Hrun. cbn [snd]. rewrite served_afterPolls.
  assert (pollBudget = 6%nat) as Hsix by reflexivity.
  assert (n ≠ 5%nat) as Hne.
  { intros ->. destruct (Hbefore 4%nat ltac:(lia)) as [_ Hearly].
    pose proof (clock_afterPolls_with app 5 w k Hk) as Hlow.
    unfold deployRunningThreshold, deployRunningCheckInterval in *. lia. }
  lia.
Qed.

(** X4: when the first [n] polls do not find the instances converged, failed
    queries included, but each of them ends no later than the deadline, and
    the next poll finds them converged, the wait returns success after
    exactly [n + 1] queries. *)
Theorem wait_succeeds_after_early_failures (app : string) (w : World) (n : nat) :
  (∀ k, (k < n)%nat →
     fst (verdict app (cluster (served w + k))) = false ∧
     clock (afterPolls cluster app (S k) w) ≤ clock w + deployRunningThreshold) →
  fst (verdict app (cluster (served w + n))) = true →
  waitForPodContainersRunning cluster app w = (Ret None, afterPolls cluster app (S n) w) ∧
  served (afterPolls cluster app (S n) w) = (served w + S n)%nat.
Proof.
  intros Hearly Hready.
  destruct (waitFor_run app w) as (n0 & Hn0 & Hbefore & Hrun & Hend).
  assert (n0 = n) as ->.
  { destruct (Nat.lt_trichotomy n0 n) as [Hlt | [Heq | Hgt]]; [| exact Heq |].
    - destruct (Hearly n0 Hlt) as [Hv Hc]. specialize (Hend Hv). lia.
    - destruct (Hbefore n Hgt) as [Hv _]. congruence. }
  rewrite Hready in Hrun. split; [exact Hrun | apply served_afterPolls].
Qed.

(** X5: a wait only reads.  Whatever the cluster does, the requests it adds
    to the history are all pod listings with the selector of the
    application, the store has accepted no update through it, and the store
    at its end is the store at its start with the writes of other clients
    applied. *)
Theorem wait_only_reads (app : string) (w : World) :
  accepted (history (snd (waitForPodContainersRunning cluster app w))) = accepted (history w) ∧
  deployments (snd (waitForPodContainersRunning cluster app w))
    = settle cluster (served w)
        (served (snd (waitForPodContainersRunning cluster app w)) - served w)
        (deployments w) ∧
  ∃ added,
    history (snd (waitForPodContainersRunning cluster app w)) = (added ++ history w)%list ∧
    ∀ entry, In entry added → fst entry = ReqList ("app=" +:+ app).
Proof.
  destruct (waitFor_run app w) as (n & _ & _ & Hrun & _). rewrite Hrun. cbn [snd].
  destruct (afterPolls_reads_only app (S n) w) as (Hacc & Hstore & added & Hhist & _ & Hall).
  split; [exact Hacc |]. split.
  - rewrite served_afterPolls. replace (served w + S n - served w)%nat with (S n) by lia.
    exact Hstore.
  - exists added. split; [exact Hhist | exact Hall].
Qed.

(** ** More on the transforms *)

Lemma setImage_last_wins (image image' : string) (d d' : Deployment.t) :
  setImage image d = Some d' → setImage image' d' = setImage image' d.
Proof.
  destruct d as [meta [replicas selector [tmeta [containers]]]].
  unfold setImage, containersOf. cbn.
  destruct containers as [| c rest]; cbn; [discriminate |].
  intros [= <-]. reflexivity.
Qed.

Lemma setImage_same (d : Deployment.t) (c : Container.t) :
  containersOf d !! 0%nat = Some c → setImage (Container.Image c) d = Some d.
Proof.
  destruct d as [meta [replicas selector [tmeta [containers]]]].
  unfold setImage, containersOf. cbn.
  destruct containers as [| c0 rest]; cbn; [discriminate |].
  intros [= <-]. destruct c0. reflexivity.
Qed.

Lemma setImage_bump (image : string) (d : Deployment.t) :
  setImage image (bump d) = bump <$> setImage image d.
Proof.
  unfold setImage, containersOf. cbn.
  destruct (PodSpec.Containers _ !! 0%nat); reflexivity.
Qed.

Lemma setImage_image (image : string) (d d' : Deployment.t) :
  setImage image d = Some d' →
  imageOf d' = Some image ∧ Deployment.Meta d' = Deployment.Meta d.
Proof.
  intros Hset. pose proof (setImage_framed image d) as Hframe. rewrite Hset in Hframe.
  destruct Hframe as (Hmeta & _ & _ & _ & c & rest & _ & Hc).
  split; [| exact Hmeta]. unfold imageOf, specImage. fold (containersOf d'). now rewrite Hc.
Qed.

(** X6: the two transforms undo and repeat cleanly.  On a descriptor that has
    a container 0, restoring from a copy what the first transform did to that
    same copy gives back the copy, field by field; applying the first
    transform a second time changes nothing more; and what the restoring
    transform produces does not depend on whether the first one ran
    before. *)
Theorem transforms_round_trip (d d' : Deployment.t) :
  setNewImage d = Some d' →
  restoreImage d d' = Some d ∧
  setNewImage d' = Some d' ∧
  ∀ originalDeployment, restoreImage originalDeployment d' = restoreImage originalDeployment d.
Proof.
  unfold setNewImage. intros Hset. split; [| split].
  - unfold restoreImage.
    destruct (containersOf d !! 0%nat) as [c |] eqn:Hc.
    + rewrite (setImage_last_wins _ _ _ _ Hset). now apply setImage_same.
    + unfold setImage in Hset. rewrite Hc in Hset. discriminate.
  - rewrite (setImage_last_wins _ _ _ _ Hset). exact Hset.
  - intros originalDeployment. unfold restoreImage.
    destruct (containersOf originalDeployment !! 0%nat); [| reflexivity].
    apply (setImage_last_wins _ _ _ _ Hset).
Qed.

(** ** More on [deploy] *)

Lemma attempt_op_panics (app : string) (op : Deployment.t → option Deployment.t)
    (w w1 : World) (result : Deployment.t) :
  DeploymentsGet cluster app w = (Ret (inl result), w1) →
  op result = None →
  deployAttempt cluster app op w = (Panic IndexOutOfRange, w1).
Proof.
  intros Hget Hop. unfold deployAttempt. now rewrite (bind_Ret _ _ _ _ _ Hget), Hop.
Qed.

(** X7: indexing container 0 is not guarded.  With at least one attempt
    allowed, when the descriptor that [deploy] reads lists no container, the
    transform that sets an image makes [deploy] panic with an index out of
    range right after that read, and so does the restoring transform, also
    when it is the copy to restore from that lists no container; no update
    is sent and nothing is retried. *)
Theorem deploy_panics_without_container (app : string) (w w1 : World) (result : Deployment.t) :
  (0 < Steps DefaultRetry)%nat →
  DeploymentsGet cluster app w = (Ret (inl result), w1) →
  (containersOf result = [] →
   ∀ image, deploy cluster DefaultRetry app (setImage image) w = (Panic IndexOutOfRange, w1)) ∧
  (∀ originalDeployment,
     containersOf originalDeployment = [] ∨ containersOf result = [] →
     deploy cluster DefaultRetry app (restoreImage originalDeployment) w
       = (Panic IndexOutOfRange, w1)).
Proof.
  intros Hpos Hget. unfold deploy, RetryOnConflict.
  destruct (Steps DefaultRetry) as [| remaining]; [lia |].
  split.
  - intros Hnone image. rewrite retryLoop_S. cbn [rested].
    rewrite (attempt_op_panics _ _ _ _ _ Hget); [reflexivity |].
    unfold setImage. now rewrite Hnone.
  - intros originalDeployment Hnone. rewrite retryLoop_S. cbn [rested].
    rewrite (attempt_op_panics _ _ _ _ _ Hget); [reflexivity |].
    unfold restoreImage, setImage. destruct Hnone as [-> | ->]; [reflexivity |].
    now destruct (containersOf originalDeployment !! 0%nat).
Qed.

(** What one read-transform-write cycle does to the world. *)
Lemma attempt_effect (app : string) (op : Deployment.t → option Deployment.t) (w : World) :
  (served w < served (snd (deployAttempt cluster app op w)) ≤ served w + 2)%nat ∧
  match fst (deployAttempt cluster app op w) with
  | Ret None =>
      ∃ result result',
        intrude (cluster (served w)) (deployments w) !! app = Some result ∧
        op result = Some result' ∧
        accepted (history (snd (deployAttempt cluster app op w)))
          = result' :: accepted (history w) ∧
        deployments (snd (deployAttempt cluster app op w))
          = <[ObjectMeta.Name (Deployment.Meta result') := bump result']>
              (settle cluster (served w) 2 (deployments w))
  | _ =>
      accepted (history (snd (deployAttempt cluster app op w))) = accepted (history w) ∧
      deployments (snd (deployAttempt cluster app op w))
        = settle cluster (served w)
            (served (snd (deployAttempt cluster app op w)) - served w) (deployments w)
  end.
Proof.
  unfold deployAttempt, DeploymentsGet, DeploymentsUpdate, arrive, record, mbind, M_bind, panic.
  cbn. destruct (fault (cluster (served w))) as [reason |]; cbn.
  { replace (S (served w) - served w)%nat with 1%nat by lia. split; [lia | now split]. }
  destruct (intrude (cluster (served w)) (deployments w) !! app) as [result |] eqn:Hres; cbn.
  2: { replace (S (served w) - served w)%nat with 1%nat by lia. split; [lia | now split]. }
  destruct (op result) as [result' |] eqn:Hop; cbn.
  2: { replace (S (served w) - served w)%nat with 1%nat by lia. split; [lia | now split]. }
  assert (S (S (served w)) - served w = 2)%nat as Htwo by lia.
  destruct (fault (cluster (S (served w)))) as [reason |]; cbn.
  { rewrite Htwo. split; [lia | now split]. }
  destruct (intrude (cluster (S (served w))) _ !! _) as [current |]; cbn.
  2: { rewrite Htwo. split; [lia | now split]. }
  destruct (N.eqb _ _); cbn.
  - split; [lia |]. exists result, result'. repeat split. exact Hop.
  - rewrite Htwo. split; [lia | now split].
Qed.

(** The retry, by cases: it ends the way an attempt ends, or it gives up
    after conflicts only. *)
Lemma retryLoop_cases (I : World → Prop) (R : Result (option error) → World → Prop)
    (duration : N) (fn : M (option error)) :
  (∀ w d, I w → I (snd (timer d w))) →
  (∀ w, I w →
     match fn w with
     | (Ret (Some e), w') => if IsConflict e then I w' else R (Ret (Some e)) w'
     | (r, w') => R r w'
     end) →
  ∀ (remaining : nat) (first : bool) (last : option error) (w : World),
    I w →
    R (fst (retryLoop remaining first duration last fn w))
      (snd (retryLoop remaining first duration last fn w)) ∨
    (I (snd (retryLoop remaining first duration last fn w)) ∧
     ((remaining = 0%nat ∧ fst (retryLoop remaining first duration last fn w) = Ret last) ∨
      ∃ e, IsConflict e = true ∧
           fst (retryLoop remaining first duration last fn w) = Ret (Some e))).
Proof.
  intros Htimer Hfn. induction remaining as [| remaining IH]; intros first last w HI.
  - cbn. right. split; [exact HI | now left].
  - rewrite retryLoop_S.
    assert (I (rested first duration w)) as HI0.
    { unfold rested. destruct first; [exact HI | now apply Htimer]. }
    specialize (Hfn _ HI0).
    destruct (fn (rested first duration w)) as [[[e |] | v |] w1]; cbn [fst snd]; auto.
    destruct (IsConflict e) eqn:He; cbn [fst snd]; auto.
    destruct (IH false (Some e) w1 Hfn) as [HR | [HI2 [[-> Hout] | Hex]]]; auto.
    right. split; [exact HI2 |]. right. exists e. auto.
Qed.

Lemma deploy_effect (app : string) (op : Deployment.t → option Deployment.t) (w : World) :
  (0 < Steps DefaultRetry)%nat →
  match fst (deploy cluster DefaultRetry app op w) with
  | Ret None =>
      ∃ result result',
        op result = Some result' ∧
        accepted (history (snd (deploy cluster DefaultRetry app op w)))
          = result' :: accepted (history w)
  | _ => accepted (history (snd (deploy cluster DefaultRetry app op w))) = accepted (history w)
  end.
Proof.
  intros Hpos. unfold deploy, RetryOnConflict.
  destruct (retryLoop_cases
              (λ w0, accepted (history w0) = accepted (history w))
              (λ r w', match r with
                       | Ret None =>
                           ∃ result result',
                             op result = Some result' ∧
                             accepted (history w') = result' :: accepted (history w)
                       | _ => accepted (history w') = accepted (history w)
                       end)
              (Duration DefaultRetry) (deployAttempt cluster app op))
    with (remaining := Steps DefaultRetry) (first := true) (last := @None error) (w := w)
    as [HR | [HI [[Hz _] | (e & _ & Hout)]]].
  - intros w0 d H. exact H.
  - intros w0 HI. destruct (attempt_effect app op w0) as [_ Heff].
    destruct (deployAttempt cluster app op w0) as [[[e |] | v |] w1]; cbn [fst snd] in *.
    + destruct (IsConflict e); destruct Heff as [Hacc _]; congruence.
    + destruct Heff as (result & result' & _ & Hop & Hacc & _).
      exists result, result'. split; [exact Hop | congruence].
    + destruct Heff as [Hacc _]. congruence.
    + destruct Heff as [Hacc _]. congruence.
  - reflexivity.
  - exact HR.
  - lia.
  - rewrite Hout. exact HI.
Qed.

Lemma retryLoop_served (duration : N) (fn : M (option error)) :
  (∀ w, (served w ≤ served (snd (fn w)) ≤ served w + 2)%nat) →
  ∀ (remaining : nat) (first : bool) (last : option error) (w : World),
    (served w ≤ served (snd (retryLoop remaining first duration last fn w))
       ≤ served w + 2 * remaining)%nat.
Proof.
  intros Hfn. induction remaining as [| remaining IH]; intros first last w.
  - cbn. lia.
  - rewrite retryLoop_S. destruct (rested_fields first duration w) as (_ & Hn & _).
    specialize (Hfn (rested first duration w)). rewrite Hn in Hfn.
    destruct (fn (rested first duration w)) as [[[e |] | v |] w1]; cbn [fst snd] in *; try lia.
    destruct (IsConflict e); cbn [snd]; [| lia].
    specialize (IH false (Some e) w1). lia.
Qed.

Lemma attempt_returns_served (app : string) (op : Deployment.t → option Deployment.t)
    (w : World) (err : option error) :
  fst (deployAttempt cluster app op w) = Ret err →
  served (snd (deployAttempt cluster app op w)) = S (S (served w)).
Proof.
  unfold deployAttempt, DeploymentsGet, DeploymentsUpdate, arrive, record, mbind, M_bind, panic.
  cbn. destruct (fault (cluster (served w))); cbn; [discriminate |].
  destruct (intrude (cluster (served w)) (deployments w) !! app) as [result |]; cbn;
    [| discriminate].
  destruct (op result) as [result' |]; cbn; [| discriminate].
  destruct (fault (cluster (S (served w)))); cbn; [reflexivity |].
  destruct (intrude (cluster (S (served w))) _ !! _); cbn; [| reflexivity].
  destruct (N.eqb _ _); reflexivity.
Qed.

Lemma settle_snoc (from n : nat) (store : gmap string Deployment.t) :
  settle cluster from (n + 1) store = intrude (cluster (from + n)) (settle cluster from n store).
Proof. rewrite settle_add. reflexivity. Qed.

(** A [deploy] that succeeds, tied to what it read and wrote. *)
Lemma deploy_effect_tied (app : string) (op : Deployment.t → option Deployment.t) (w : World) :
  (0 < Steps DefaultRetry)%nat →
  match fst (deploy cluster DefaultRetry app op w) with
  | Ret None =>
      ∃ j result result',
        settle cluster (served w) (2 * j + 1) (deployments w) !! app = Some result ∧
        op result = Some result' ∧
        accepted (history (snd (deploy cluster DefaultRetry app op w)))
          = result' :: accepted (history w) ∧
        served (snd (deploy cluster DefaultRetry app op w)) = (served w + 2 * j + 2)%nat ∧
        deployments (snd (deploy cluster DefaultRetry app op w))
          = <[ObjectMeta.Name (Deployment.Meta result') := bump result']>
              (settle cluster (served w) (2 * j + 2) (deployments w))
  | _ => accepted (history (snd (deploy cluster DefaultRetry app op w))) = accepted (history w)
  end.
Proof.
  intros Hpos. unfold deploy, RetryOnConflict.
  destruct (retryLoop_cases
              (λ w0, ∃ j, served w0 = (served w + 2 * j)%nat ∧
                          deployments w0 = settle cluster (served w) (2 * j) (deployments w) ∧
                          accepted (history w0) = accepted (history w))
              (λ r w', match r with
                       | Ret None =>
                           ∃ j result result',
                             settle cluster (served w) (2 * j + 1) (deployments w) !! app
                               = Some result ∧
                             op result = Some result' ∧
                             accepted (history w') = result' :: accepted (history w) ∧
                             served w' = (served w + 2 * j + 2)%nat ∧
                             deployments w'
                               = <[ObjectMeta.Name (Deployment.Meta result') := bump result']>
                                   (settle cluster (served w) (2 * j + 2) (deployments w))
                       | _ => accepted (history w') = accepted (history w)
                       end)
              (Duration DefaultRetry) (deployAttempt cluster app op))
    with (remaining := Steps DefaultRetry) (first := true) (last := @None error) (w := w)
    as [HR | [HI [[Hz _] | (e & _ & Hout)]]].
  - intros w0 d H. exact H.
  - intros w0 (j & Hsv & Hst & Hacc).
    destruct (attempt_effect app op w0) as [Hbound Heff].
    pose proof (attempt_returns_served app op w0) as Hserved.
    destruct (deployAttempt cluster app op w0) as [[[e |] | v |] w1]; cbn [fst snd] in *.
    + destruct Heff as [Hacc1 Hst1]. specialize (Hserved (Some e) eq_refl).
      destruct (IsConflict e); [| congruence].
      exists (S j). split; [lia |]. split; [| congruence].
      rewrite Hst1, Hserved, Hst, Hsv.
      replace (S (S (served w + 2 * j)) - (served w + 2 * j))%nat with 2%nat by lia.
      rewrite <- settle_add. f_equal. lia.
    + destruct Heff as (result & result' & Hres & Hop & Hacc1 & Hst1).
      specialize (Hserved None eq_refl).
      exists j, result, result'. rewrite Hst, Hsv in Hres. rewrite <- settle_snoc in Hres.
      split; [exact Hres |]. split; [exact Hop |]. split; [congruence |]. split; [lia |].
      rewrite Hst1, Hst, Hsv, <- settle_add. reflexivity.
    + destruct Heff as [Hacc1 _]. congruence.
    + destruct Heff as [Hacc1 _]. congruence.
  - exists 0%nat. repeat split. lia.
  - exact HR.
  - lia.
  - rewrite Hout. destruct HI as (_ & _ & _ & Hacc). exact Hacc.
Qed.

(** X8: an update through [deploy] is all or nothing.  With at least one
    attempt allowed, a [deploy] that returns without error has had exactly
    one update accepted by the store: after [j] cycles without effect, [j]
    smaller than the number of attempts, its next read returned the record
    as the store held it then, and the update accepted is the transform of
    that descriptor, which the store holds from then on.  A [deploy] that
    ends in any other way, an error handed back or a panic, has had none
    accepted.  In either case it sends at most one read and one update per
    attempt allowed. *)
Theorem deploy_is_all_or_nothing
    (app : string) (op : Deployment.t → option Deployment.t) (w : World) :
  (0 < Steps DefaultRetry)%nat →
  match fst (deploy cluster DefaultRetry app op w) with
  | Ret None =>
      ∃ j result result',
        (j < Steps DefaultRetry)%nat ∧
        settle cluster (served w) (2 * j + 1) (deployments w) !! app = Some result ∧
        op result = Some result' ∧
        accepted (history (snd (deploy cluster DefaultRetry app op w)))
          = result' :: accepted (history w) ∧
        served (snd (deploy cluster DefaultRetry app op w)) = (served w + 2 * j + 2)%nat ∧
        deployments (snd (deploy cluster DefaultRetry app op w))
          = <[ObjectMeta.Name (Deployment.Meta result') := bump result']>
              (settle cluster (served w) (2 * j + 2) (deployments w))
  | _ => accepted (history (snd (deploy cluster DefaultRetry app op w))) = accepted (history w)
  end ∧
  (served w ≤ served (snd (deploy cluster DefaultRetry app op w))
     ≤ served w + 2 * Steps DefaultRetry)%nat.
Proof.
  intros Hpos.
  assert (served w ≤ served (snd (deploy cluster DefaultRetry app op w))
            ≤ served w + 2 * Steps DefaultRetry)%nat as Hbound.
  { unfold deploy, RetryOnConflict. apply retryLoop_served.
    intros w0. destruct (attempt_effect app op w0) as [Hs _]. lia. }
  split; [| exact Hbound].
  pose proof (deploy_effect_tied app op w Hpos) as Heff.
  destruct (fst (deploy cluster DefaultRetry app op w)) as [[e |] | v |]; try exact Heff.
  destruct Heff as (j & result & result' & Hres & Hop & Hacc & Hsv & Hst).
  exists j, result, result'. repeat split; try assumption. lia.
Qed.

(** ** More on [main] *)

Lemma intrude_None (m : Moment) (store : gmap string Deployment.t) (name : string) :
  store !! name = None → intrude m store !! name = None.
Proof.
  intros Hnone. unfold intrude. destruct (rival m) as [[target g] |]; [| exact Hnone].
  rewrite lookup_alter. case_decide as Hn; [| exact Hnone]. subst target. now rewrite Hnone.
Qed.

(** X9: without a deployment named [redis] in the store, [main] ends in a
    panic that carries the error of its first read; that read is the only
    request it has sent, so no health query and no update follow, and
    nothing is printed.  When the read itself is served, the error is
    [NotFound]. *)
Theorem main_without_deployment (w : World) :
  deployments w !! "redis" = None →
  ∃ reason,
    main cluster DefaultRetry w
      = (Panic (PanicError (StatusError reason)),
         {| clock := clock w + latency (cluster (served w));
            deployments := intrude (cluster (served w)) (deployments w);
            served := S (served w);
            history := (ReqGet "redis", Some reason) :: history w;
            stdout := stdout w |}) ∧
    (fault (cluster (served w)) = None → reason = NotFound).
Proof.
  intros Hnone. unfold main, DeploymentsGet, arrive, record, mbind, M_bind, panic. cbn.
  destruct (fault (cluster (served w))) as [reason |]; cbn.
  - exists reason. split; [reflexivity | discriminate].
  - rewrite (intrude_None _ _ _ Hnone). exists NotFound. split; reflexivity.
Qed.

Lemma intrude_quiet (n : nat) (store : gmap string Deployment.t) :
  quiet cluster → intrude (cluster n) store = store.
Proof. intros Hq. unfold intrude. now rewrite Hq. Qed.

Lemma settle_quiet (from n : nat) (store : gmap string Deployment.t) :
  quiet cluster → settle cluster from n store = store.
Proof.
  intros Hq. revert from store. induction n as [| n IH]; intros from store; cbn [settle];
    [reflexivity |].
  now rewrite intrude_quiet, IH.
Qed.

Lemma deploy_quiet_effect (app : string) (op : Deployment.t → option Deployment.t) (w : World) :
  quiet cluster →
  (0 < Steps DefaultRetry)%nat →
  match fst (deploy cluster DefaultRetry app op w) with
  | Ret None =>
      ∃ result result',
        deployments w !! app = Some result ∧
        op result = Some result' ∧
        deployments (snd (deploy cluster DefaultRetry app op w))
          = <[ObjectMeta.Name (Deployment.Meta result') := bump result']> (deployments w)
  | _ => deployments (snd (deploy cluster DefaultRetry app op w)) = deployments w
  end.
Proof.
  intros Hq Hpos. unfold deploy, RetryOnConflict.
  destruct (retryLoop_cases
              (λ w0, deployments w0 = deployments w)
              (λ r w', match r with
                       | Ret None =>
                           ∃ result result',
                             deployments w !! app = Some result ∧
                             op result = Some result' ∧
                             deployments w'
                               = <[ObjectMeta.Name (Deployment.Meta result') := bump result']>
                                   (deployments w)
                       | _ => deployments w' = deployments w
                       end)
              (Duration DefaultRetry) (deployAttempt cluster app op))
    with (remaining := Steps DefaultRetry) (first := true) (last := @None error) (w := w)
    as [HR | [HI [[Hz _] | (e & _ & Hout)]]].
  - intros w0 d H. exact H.
  - intros w0 HI. destruct (attempt_effect app op w0) as [_ Heff].
    destruct (deployAttempt cluster app op w0) as [[[e |] | v |] w1]; cbn [fst snd] in *.
    + destruct Heff as [_ Hst]. rewrite settle_quiet in Hst by exact Hq.
      destruct (IsConflict e); congruence.
    + destruct Heff as (result & result' & Hres & Hop & _ & Hst).
      rewrite settle_quiet in Hst by exact Hq. rewrite intrude_quiet in Hres by exact Hq.
      exists result, result'. rewrite <- HI. auto.
    + destruct Heff as [_ Hst]. rewrite settle_quiet in Hst by exact Hq. congruence.
    + destruct Heff as [_ Hst]. rewrite settle_quiet in Hst by exact Hq. congruence.
  - reflexivity.
  - exact HR.
  - lia.
  - rewrite Hout. exact HI.
Qed.

(** A run of [main] that ends normally or with the panic of the second wait,
    stage by stage. *)
Lemma main_stages (w w' : World) (r : Result unit) :
  (0 < Steps DefaultRetry)%nat →
  wellKeyed (deployments w) →
  main cluster DefaultRetry w = (r, w') →
  r = Ret tt ∨ r = Panic (PanicError timeoutErr) →
  ∃ originalDeployment w1 w3 w4 w5 n n',
    DeploymentsGet cluster "redis" w = (Ret (inl originalDeployment), w1) ∧
    deploy cluster DefaultRetry "redis" setNewImage (queried cluster "redis" w1)
      = (Ret None, w3) ∧
    wellKeyed (deployments w3) ∧
    deployments w4 = deployments (afterPolls cluster "redis" (S n) w3) ∧
    history w4 = history (afterPolls cluster "redis" (S n) w3) ∧
    deploy cluster DefaultRetry "redis" (restoreImage originalDeployment) w4 = (Ret None, w5) ∧
    deployments w' = deployments (afterPolls cluster "redis" (S n') w5) ∧
    history w' = history (afterPolls cluster "redis" (S n') w5) ∧
    (r = Ret tt →
     stdout w' = Literal "Rolled back successfully!"
                   :: stdout (afterPolls cluster "redis" (S n') w5)).
Proof.
  intros Hpos Hk Hmain Hr. unfold main in Hmain.
  destruct (DeploymentsGet_inv "redis" w) as [Hstore Hres].
  destruct (DeploymentsGet cluster "redis" w) as [got w1] eqn:Hget. cbn [fst snd] in *.
  assert (wellKeyed (deployments w1)) as Hk1 by (rewrite Hstore; now apply intrude_wellKeyed).
  destruct Hres as [[reason ->] | (originalDeployment & -> & _)];
    rewrite (bind_Ret _ _ _ _ _ Hget) in Hmain.
  { unfold panic in Hmain. injection Hmain as <- <-. destruct Hr; discriminate. }
  rewrite (bind_Ret _ _ _ _ _ (podContainersRunning_eq "redis" w1)) in Hmain.
  destruct (verdict "redis" (cluster (served w1))) as [allRunning err].
  destruct (negb (allRunning && isNil err)).
  { unfold panic in Hmain. injection Hmain as <- <-. destruct Hr; discriminate. }
  assert (wellKeyed (deployments (queried cluster "redis" w1))) as Hk2
    by (cbn [queried deployments]; now apply intrude_wellKeyed).
  apply (deploy_or_panic _ _ _ _ _ _ Hpos Hk2) in Hmain as (w3 & Hd3 & Hk3 & Hmain);
    [| exact Hr].
  destruct (waitFor_run "redis" w3) as (n & _ & _ & Hwait & _).
  rewrite (bind_Ret _ _ _ _ _ Hwait) in Hmain.
  assert (wellKeyed (deployments (afterPolls cluster "redis" (S n) w3))) as Hk4.
  { destruct (afterPolls_reads_only "redis" (S n) w3) as (_ & -> & _).
    now apply settle_wellKeyed. }
  assert (∃ w4,
     deployments w4 = deployments (afterPolls cluster "redis" (S n) w3) ∧
     history w4 = history (afterPolls cluster "redis" (S n) w3) ∧
     (deploy cluster DefaultRetry "redis" (restoreImage originalDeployment) ≫= λ err,
        match err with
        | Some e => panic (PanicError e)
        | None =>
            err ← waitForPodContainersRunning cluster "redis";
            match err with
            | Some e => panic (PanicError e)
            | None => println (Literal "Rolled back successfully!")
            end
        end) w4 = (r, w')) as (w4 & Hd4 & Hh4 & Hrest).
  { destruct (fst (verdict "redis" (cluster (served w3 + n)))).
    - eexists. split; [| split; [| exact Hmain]]; reflexivity.
    - eexists. split; [| split; [| exact Hmain]]; reflexivity. }
  clear Hmain. rewrite <- Hd4 in Hk4.
  apply (deploy_or_panic _ _ _ _ _ _ Hpos Hk4) in Hrest as (w5 & Hd5 & Hk5 & Hrest);
    [| exact Hr].
  destruct (waitFor_run "redis" w5) as (n' & _ & _ & Hwait' & _).
  rewrite (bind_Ret _ _ _ _ _ Hwait') in Hrest.
  exists originalDeployment, w1, w3, w4, w5, n, n'.
  repeat (split; [assumption || reflexivity |]).
  destruct (fst (verdict "redis" (cluster (served w5 + n')))).
  - unfold println in Hrest. injection Hrest as _ <-. cbn. auto.
  - unfold panic in Hrest. injection Hrest as <- <-. repeat split. discriminate.
Qed.

(** X10: every run of [main] that gets as far as the second wait has had
    exactly two updates accepted by the store, in this order: one that
    carries the image [redis:doesntexist], then one that carries the image
    of the copy read at the start; and a run that ends normally has printed
    [Rolled back successfully!] last.  There is no normal end without the
    second update. *)
Theorem main_sends_two_updates
    (w w1 w' : World) (originalDeployment : Deployment.t) (r : Result unit) :
  (0 < Steps DefaultRetry)%nat →
  wellKeyed (deployments w) →
  DeploymentsGet cluster "redis" w = (Ret (inl originalDeployment), w1) →
  main cluster DefaultRetry w = (r, w') →
  r = Ret tt ∨ r = Panic (PanicError timeoutErr) →
  ∃ fwd back,
    accepted (history w') = back :: fwd :: accepted (history w) ∧
    imageOf fwd = Some "redis:doesntexist" ∧
    imageOf back = imageOf originalDeployment ∧
    (r = Ret tt → ∃ rest, stdout w' = Literal "Rolled back successfully!" :: rest).
Proof.
  intros Hpos Hk Hget Hmain Hr.
  destruct (main_stages w w' r Hpos Hk Hmain Hr)
    as (original & w1' & w3 & w4 & w5 & n & n' & Hget' & Hd3 & _ & _ & Hh4 & Hd5 & _ & Hh' & Hout).
  rewrite Hget in Hget'. injection Hget' as <- <-.
  pose proof (deploy_effect "redis" setNewImage (queried cluster "redis" w1) Hpos) as He3.
  rewrite Hd3 in He3. cbn [fst snd] in He3. destruct He3 as (res3 & fwd & Hop3 & Hacc3).
  pose proof (deploy_effect "redis" (restoreImage originalDeployment) w4 Hpos) as He5.
  rewrite Hd5 in He5. cbn [fst snd] in He5. destruct He5 as (res5 & back & Hop5 & Hacc5).
  exists fwd, back. split; [| split; [| split]].
  - rewrite Hh'. destruct (afterPolls_reads_only "redis" (S n') w5) as (-> & _).
    rewrite Hacc5, Hh4. destruct (afterPolls_reads_only "redis" (S n) w3) as (-> & _).
    rewrite Hacc3. destruct (DeploymentsGet_ok _ _ _ _ Hget) as (_ & _ & ->). reflexivity.
  - apply (setImage_image _ _ _ Hop3).
  - destruct (restoreImage_image _ _ _ Hop5) as (_ & _ & Himg). exact Himg.
  - intros Hend. eexists. now apply Hout.
Qed.

(** X11: in a cluster where no other client writes, every run of [main] that
    gets as far as the second wait leaves the store as it found it, except
    that the record of [redis] is two versions older: its spec and the rest
    of its metadata are those read at the start. *)
Theorem main_quiet_round_trip (w w' : World) (r : Result unit) :
  quiet cluster →
  (0 < Steps DefaultRetry)%nat →
  wellKeyed (deployments w) →
  main cluster DefaultRetry w = (r, w') →
  r = Ret tt ∨ r = Panic (PanicError timeoutErr) →
  ∃ originalDeployment,
    deployments w !! "redis" = Some originalDeployment ∧
    deployments w' = <["redis" := bump (bump originalDeployment)]> (deployments w).
Proof.
  intros Hq Hpos Hk Hmain Hr.
  destruct (main_stages w w' r Hpos Hk Hmain Hr)
    as (original & w1 & w3 & w4 & w5 & n & n' & Hget & Hd3 & _ & Hs4 & _ & Hd5 & Hs' & _ & _).
  destruct (DeploymentsGet_ok _ _ _ _ Hget) as (_ & Horig & Hw1).
  rewrite intrude_quiet in Horig by exact Hq.
  pose proof (Hk _ _ Horig) as Hname.
  assert (deployments (queried cluster "redis" w1) = deployments w) as Hs2.
  { rewrite Hw1. cbn [queried deployments served]. now rewrite !intrude_quiet. }
  pose proof (deploy_quiet_effect "redis" setNewImage (queried cluster "redis" w1) Hq Hpos) as He3.
  rewrite Hd3 in He3. cbn [fst snd] in He3.
  destruct He3 as (res3 & fwd & Hres3 & Hop3 & Hs3).
  rewrite Hs2 in Hres3, Hs3. rewrite Horig in Hres3. injection Hres3 as <-.
  destruct (setImage_image _ _ _ Hop3) as [_ Hmeta3]. rewrite Hmeta3, Hname in Hs3.
  destruct (afterPolls_reads_only "redis" (S n) w3) as (_ & Hpoll & _).
  rewrite settle_quiet in Hpoll by exact Hq. rewrite Hpoll, Hs3 in Hs4.
  pose proof (deploy_quiet_effect "redis" (restoreImage original) w4 Hq Hpos) as He5.
  rewrite Hd5 in He5. cbn [fst snd] in He5.
  destruct He5 as (res5 & back & Hres5 & Hop5 & Hs5).
  rewrite Hs4, lookup_insert_eq in Hres5. injection Hres5 as <-.
  assert (back = bump original) as ->.
  { unfold restoreImage in Hop5.
    destruct (containersOf original !! 0%nat) as [c |] eqn:Hc; [| discriminate].
    rewrite setImage_bump, (setImage_last_wins _ _ _ _ Hop3), (setImage_same _ _ Hc) in Hop5.
    cbn in Hop5. congruence. }
  exists original. split; [exact Horig |].
  destruct (afterPolls_reads_only "redis" (S n') w5) as (_ & Hpoll' & _).
  rewrite settle_quiet in Hpoll' by exact Hq.
  rewrite Hs', Hpoll', Hs5, Hs4. cbn [bump Deployment.Meta ObjectMeta.Name]. rewrite Hname.
  apply insert_insert_eq.
Qed.

(** C8: in every run of [main] that gets as far as the second wait, that is,
    that ends normally or with the panic of the second wait, the store has
    accepted two updates from [main], first one that carries the image
    [redis:doesntexist] and then, as the rollback, one that carries the image
    of the copy read at the start; and when no other client changes the image
    of container 0 the store ends with that image, the one the copy read at
    the start carries. *)
Theorem rollback_restores_snapshot_image
    (w w1 w' : World) (originalDeployment : Deployment.t) (r : Result unit) :
  (0 < Steps DefaultRetry)%nat →
  wellKeyed (deployments w) →
  imagePreserving cluster →
  DeploymentsGet cluster "redis" w = (Ret (inl originalDeployment), w1) →
  main cluster DefaultRetry w = (r, w') →
  r = Ret tt ∨ r = Panic (PanicError timeoutErr) →
  is_Some (imageOf originalDeployment) ∧
  (∃ fwd back,
     accepted (history w') = back :: fwd :: accepted (history w) ∧
     imageOf fwd = Some "redis:doesntexist" ∧
     imageOf back = imageOf originalDeployment) ∧
  storedImage w' "redis" = imageOf originalDeployment.
Proof.
  intros Hpos Hk Hkeep Hget Hmain Hr.
  destruct (main_stages w w' r Hpos Hk Hmain Hr)
    as (original & w1' & w3 & w4 & w5 & n & n' & Hget' & Hd3 & Hk3 & Hs4 & Hh4 & Hd5
        & Hs' & Hh' & _).
  rewrite Hget in Hget'. injection Hget' as <- <-.
  pose proof (deploy_effect "redis" setNewImage (queried cluster "redis" w1) Hpos) as He3.
  rewrite Hd3 in He3. cbn [fst snd] in He3. destruct He3 as (res3 & fwd & Hop3 & Hacc3).
  pose proof (deploy_effect "redis" (restoreImage originalDeployment) w4 Hpos) as He5.
  rewrite Hd5 in He5. cbn [fst snd] in He5. destruct He5 as (res5 & back & Hop5 & Hacc5).
  assert (wellKeyed (deployments w4)) as Hk4.
  { rewrite Hs4. destruct (afterPolls_reads_only "redis" (S n) w3) as (_ & -> & _).
    now apply settle_wellKeyed. }
  destruct (rollback_written originalDeployment w4 Hpos Hk4) as [Hsome Himg];
    [now rewrite Hd5 |].
  rewrite Hd5 in Himg. cbn [snd] in Himg.
  destruct (deploy_outcome "redis" (restoreImage originalDeployment) w4 Hk4) as [Hk5 _].
  rewrite Hd5 in Hk5. cbn [snd] in Hk5.
  destruct (afterPolls_store "redis" "redis" (S n') w5 Hkeep Hk5) as [_ Hsame].
  split; [exact Hsome |]. split.
  - exists fwd, back. split; [| split].
    + rewrite Hh'. destruct (afterPolls_reads_only "redis" (S n') w5) as (-> & _).
      rewrite Hacc5, Hh4. destruct (afterPolls_reads_only "redis" (S n) w3) as (-> & _).
      rewrite Hacc3. destruct (DeploymentsGet_ok _ _ _ _ Hget) as (_ & _ & ->). reflexivity.
    + apply (setImage_image _ _ _ Hop3).
    + destruct (restoreImage_image _ _ _ Hop5) as (_ & _ & Himg5). exact Himg5.
  - rewrite <- Himg, <- Hsame. unfold storedImage. now rewrite Hs'.
Qed.

(** ** What a run can cost *)

Lemma bind_bound (μ : World → nat) {A B} (m : M A) (k : A → M B) (a b c : nat) (w : World) :
  (μ w ≤ μ (snd (m w)) ≤ μ w + a)%nat →
  (∀ x w1, (μ w1 ≤ μ (snd (k x w1)) ≤ μ w1 + b)%nat) →
  (a + b ≤ c)%nat →
  (μ w ≤ μ (snd ((m ≫= k) w)) ≤ μ w + c)%nat.
Proof.
  intros Hm Hk Hc. unfold mbind, M_bind.
  destruct (m w) as [[x | v |] w1]; cbn [snd] in *; [| lia | lia].
  specialize (Hk x w1). lia.
Qed.

Lemma deploy_cost (app : string) (op : Deployment.t → option Deployment.t) (w : World) :
  (served w ≤ served (snd (deploy cluster DefaultRetry app op w))
     ≤ served w + 2 * Steps DefaultRetry)%nat ∧
  (length (accepted (history w))
     ≤ length (accepted (history (snd (deploy cluster DefaultRetry app op w))))
     ≤ length (accepted (history w)) + 1)%nat.
Proof.
  split.
  - unfold deploy, RetryOnConflict. apply retryLoop_served.
    intros w0. destruct (attempt_effect app op w0) as [Hs _]. lia.
  - destruct (Nat.eq_0_gt_0_cases (Steps DefaultRetry)) as [Hz | Hpos].
    + unfold deploy, RetryOnConflict. rewrite Hz. cbn. lia.
    + pose proof (deploy_effect app op w Hpos) as Heff.
      destruct (fst (deploy cluster DefaultRetry app op w)) as [[e |] | v |].
      * rewrite Heff. lia.
      * destruct Heff as (result & result' & _ & ->). cbn [length]. lia.
      * rewrite Heff. lia.
      * rewrite Heff. lia.
Qed.

Lemma wait_cost (app : string) (w : World) :
  (served w ≤ served (snd (waitForPodContainersRunning cluster app w)) ≤ served w + 6)%nat ∧
  accepted (history (snd (waitForPodContainersRunning cluster app w))) = accepted (history w).
Proof.
  destruct (waitFor_run app w) as (n & Hn & _ & Hrun & _). rewrite Hrun. cbn [snd].
  assert (pollBudget = 6%nat) as Hsix by reflexivity.
  split; [rewrite served_afterPolls; lia |].
  now destruct (afterPolls_reads_only app (S n) w) as (-> & _).
Qed.

Lemma DeploymentsGet_cost (name : string) (w : World) :
  served (snd (DeploymentsGet cluster name w)) = S (served w) ∧
  accepted (history (snd (DeploymentsGet cluster name w))) = accepted (history w).
Proof.
  unfold DeploymentsGet, arrive, record. cbn.
  destruct (fault _); cbn; [now split |]. destruct (_ !! _); now split.
Qed.

(** A quantity that no step lowers grows over a run of [main] by at most what
    its first read, its baseline check, two calls of [deploy] and two waits
    add to it. *)
Lemma main_bound (μ : World → nat) (gcost ccost dcost wcost : nat) (w : World) :
  (∀ t w0, μ (snd (println t w0)) = μ w0) →
  (∀ name w0, μ w0 ≤ μ (snd (DeploymentsGet cluster name w0)) ≤ μ w0 + gcost)%nat →
  (∀ app w0, μ w0 ≤ μ (snd (podContainersRunning cluster app w0)) ≤ μ w0 + ccost)%nat →
  (∀ app op w0, μ w0 ≤ μ (snd (deploy cluster DefaultRetry app op w0)) ≤ μ w0 + dcost)%nat →
  (∀ app w0, μ w0 ≤ μ (snd (waitForPodContainersRunning cluster app w0)) ≤ μ w0 + wcost)%nat →
  (μ w ≤ μ (snd (main cluster DefaultRetry w))
     ≤ μ w + (gcost + ccost + 2 * dcost + 2 * wcost))%nat.
Proof.
  intros Hprint Hget Hcheck Hdeploy Hwait. unfold main.
  apply (bind_bound μ _ _ gcost (ccost + 2 * dcost + 2 * wcost)); [apply Hget | | lia].
  intros [originalDeployment | err] w1; [| cbn; lia].
  apply (bind_bound μ _ _ ccost (2 * dcost + 2 * wcost)); [apply Hcheck | | lia].
  intros [allRunning err] w2. destruct (negb (allRunning && isNil err)); [cbn; lia |].
  apply (bind_bound μ _ _ dcost (dcost + 2 * wcost)); [apply Hdeploy | | lia].
  intros [e |] w3; [cbn; lia |].
  apply (bind_bound μ _ _ wcost (dcost + wcost)); [apply Hwait | | lia].
  intros err1 w4.
  apply (bind_bound μ _ _ 0 (dcost + wcost)); [| | lia].
  { destruct err1; [cbn; lia | rewrite Hprint; lia]. }
  intros _ w5.
  apply (bind_bound μ _ _ dcost wcost); [apply Hdeploy | | lia].
  intros [e |] w6; [cbn; lia |].
  apply (bind_bound μ _ _ wcost 0); [apply Hwait | | lia].
  intros [e |] w7; [cbn; lia | rewrite Hprint; lia].
Qed.

(** X12: whatever the cluster does and however the run ends, [main] sends at
    most [14 + 4 * Steps] requests (its first read, its baseline check, two
    calls of [deploy] of at most [2 * Steps] requests each and two waits of
    at most six queries each), and the store accepts at most two updates
    from it. *)
Theorem main_cost_is_bounded (w : World) :
  (served w ≤ served (snd (main cluster DefaultRetry w))
     ≤ served w + (14 + 4 * Steps DefaultRetry))%nat ∧
  (length (accepted (history w))
     ≤ length (accepted (history (snd (main cluster DefaultRetry w))))
     ≤ length (accepted (history w)) + 2)%nat.
Proof.
  split.
  - replace (14 + 4 * Steps DefaultRetry)%nat
      with (1 + 1 + 2 * (2 * Steps DefaultRetry) + 2 * 6)%nat by lia.
    apply (main_bound served 1 1 (2 * Steps DefaultRetry) 6 w).
    + reflexivity.
    + intros name w0. destruct (DeploymentsGet_cost name w0) as [-> _]. lia.
    + intros app w0. rewrite podContainersRunning_eq. cbn. lia.
    + intros app op w0. apply deploy_cost.
    + intros app w0. apply wait_cost.
  - enough (length (accepted (history w))
              ≤ length (accepted (history (snd (main cluster DefaultRetry w))))
              ≤ length (accepted (history w)) + (0 + 0 + 2 * 1 + 2 * 0))%nat by lia.
    apply (main_bound (λ w0, length (accepted (history w0))) 0 0 1 0 w); cbn beta.
    + reflexivity.
    + intros name w0. destruct (DeploymentsGet_cost name w0) as [_ ->].
      split; [reflexivity | apply Nat.le_add_r].
    + intros app w0. rewrite podContainersRunning_eq. cbn [snd queried history accepted omap].
      split; [reflexivity | apply Nat.le_add_r].
    + intros app op w0. apply deploy_cost.
    + intros app w0. destruct (wait_cost app w0) as [_ ->].
      split; [reflexivity | apply Nat.le_add_r].
Qed.

End Facts.

(** C10: a run of the wait, every request of which takes 20 ms, in which
    the instances are first seen ready by the fifth query.  The four polls
    before it end at 2.02 s, 4.04 s, 6.06 s and 8.08 s, none of them after
    the deadline of 10 s; the timer of the fifth turn fires at 10.08 s, so
    the fifth query goes out after the deadline; it finds all ready, and the
    wait returns success, not the timeout error. *)
Theorem success_after_the_deadline :
  ∃ (cluster : nat → Moment) (w : World),
    (∀ n, 0 < latency (cluster n)) ∧
    (∀ k, (k < 4)%nat → fst (verdict "redis" (cluster (served w + k)%nat)) = false) ∧
    fst (verdict "redis" (cluster (served w + 4)%nat)) = true ∧
    clock w + deployRunningThreshold
      < clock (afterPolls cluster "redis" 4 w) + deployRunningCheckInterval ∧
    waitForPodContainersRunning cluster "redis" w
      = (Ret None, afterPolls cluster "redis" 5 w).
Proof.
  exists slowlyReady, world0. split; [| split; [| split; [| split]]].
  - intros n. unfold slowlyReady. destruct (n <? 4)%nat; reflexivity.
  - intros k Hk. do 4 (destruct k as [| k]; [reflexivity |]). lia.
  - reflexivity.
  - vm_compute. reflexivity.
  - vm_compute. reflexivity.
Qed.

(** C5, the claim as worded fails: in this run the deadline passes without
    the instances having converged (no poll that ends by the deadline finds
    them converged), and the wait still does not return the timeout error:
    its fifth poll, which ends after the deadline, finds them converged and
    the wait returns success. *)
Lemma deadline_passes_and_the_wait_succeeds :
  specDeadlinePassedUnconverged slowlyReady "redis" world0 ∧
  clock world0 + deployRunningThreshold < clock (afterPolls slowlyReady "redis" 5 world0) ∧
  fst (waitForPodContainersRunning slowlyReady "redis" world0) = Ret None.
Proof.
  split; [| split; vm_compute; reflexivity].
  intros k Hle. do 4 (destruct k as [| k]; [reflexivity |]). exfalso.
  pose proof (clock_afterPolls_lower slowlyReady "redis" k
                (afterPolls slowlyReady "redis" 5 world0)) as Hlow.
  assert (afterPolls slowlyReady "redis" (S (S (S (S (S k))))) world0
          = afterPolls slowlyReady "redis" k (afterPolls slowlyReady "redis" 5 world0)) as Heq
    by reflexivity.
  rewrite Heq in Hle.
  assert (clock world0 + deployRunningThreshold
          < clock (afterPolls slowlyReady "redis" 5 world0)) as Hlate
    by (vm_compute; reflexivity).
  lia.
Qed.

(** C9, the claim as worded fails: both pods are ready at the first poll and
    the wait returns success after its first tick, but later than one check
    interval after it was called: at 2.013 s. *)
Lemma ready_on_first_poll_returns_after_the_interval :
  fault (promptlyReady (served world0)) = None ∧
  allReady (instances promptlyReady "redis" world0) ∧
  waitForPodContainersRunning promptlyReady "redis" world0
    = (Ret None, polled promptlyReady "redis" world0) ∧
  clock world0 + deployRunningCheckInterval < clock (polled promptlyReady "redis" world0).
Proof.
  split; [reflexivity |]. split; [apply rangeItems_true; reflexivity |].
  split; vm_compute; reflexivity.
Qed.

(** C2, the claim as worded fails: with no instance at all the health check
    reports converged and the wait returns success at its first poll, well
    before the deadline. *)
Lemma empty_instance_set_reported_converged :
  instances noPods "redis" world0 = [] ∧
  specConverged (instances noPods "redis" world0) = false ∧
  reportsConverged noPods "redis" world0 = true ∧
  waitForPodContainersRunning noPods "redis" world0
    = (Ret None, polled noPods "redis" world0) ∧
  clock (polled noPods "redis" world0) < clock world0 + deployRunningThreshold.
Proof.
  split; [reflexivity |]. split; [reflexivity |]. split; [reflexivity |].
  split; [vm_compute; reflexivity | vm_compute; reflexivity].
Qed.

(** C9 at work: both pods are ready at the first poll, which ends 2 s after
    the wait began. *)
Lemma ready_on_first_poll_witness :
  waitForPodContainersRunning healthy "redis" world0 = (Ret None, polled healthy "redis" world0) ∧
  served (polled healthy "redis" world0) = 1%nat ∧
  clock (polled healthy "redis" world0) = 2000000000.
Proof.
  apply (ready_on_first_poll_returns_after_one_tick healthy "redis" world0).
  - reflexivity.
  - apply rangeItems_true. reflexivity.
Defined.

(** C6 at work: one of the two pods is not ready when [main] starts. *)
Lemma unhealthy_baseline_witness :
  main degraded retry5 world0
    = (Panic (PanicText (Sprintf "Not all containers are currently running, or err: %s"
                                 [OpError None])),
       queried degraded "redis" (snd (DeploymentsGet degraded "redis" world0))) ∧
  accepted (history (queried degraded "redis" (snd (DeploymentsGet degraded "redis" world0))))
    = [] ∧
  deployments (queried degraded "redis" (snd (DeploymentsGet degraded "redis" world0)))
    = deployments world0.
Proof.
  destruct (unhealthy_baseline_aborts_before_mutation degraded retry5 world0
              (snd (DeploymentsGet degraded "redis" world0))
              (queried degraded "redis" (snd (DeploymentsGet degraded "redis" world0)))
              redisDeployment false None)
    as (Hmain & _ & Hacc & _ & Hsame).
  - vm_compute. reflexivity.
  - vm_compute. reflexivity.
  - reflexivity.
  - split; [exact Hmain |]. split; [exact Hacc |]. apply Hsame; reflexivity.
Defined.

(** C3, the claim as worded fails: a read that the server refuses makes
    [deploy] panic; no error value reaches the caller. *)
Lemma read_failure_panics :
  fst (deploy forbiddenRead retry5 "redis" setNewImage world0)
    = Panic (PanicError (Errorf "Failed to get latest version of %s: %s"
                                [OpString "redis"; OpError (Some (StatusError Forbidden))])) ∧
  ∀ err, fst (deploy forbiddenRead retry5 "redis" setNewImage world0) ≠ Ret (Some err).
Proof.
  assert (fst (deploy forbiddenRead retry5 "redis" setNewImage world0)
          = Panic (PanicError (Errorf "Failed to get latest version of %s: %s"
                                [OpString "redis"; OpError (Some (StatusError Forbidden))]))) as H
    by (vm_compute; reflexivity).
  split; [exact H |]. intros err. rewrite H. discriminate.
Qed.

(** C3 at work, in the third cycle of a [deploy] whose first two cycles met a
    conflict: a refused write is handed back after six requests, a refused
    read makes [deploy] panic after five, and nothing is sent after
    them. *)
Lemma write_failure_witness :
  (fst (deploy refusedLater retry5 "redis" setNewImage world0)
     = Ret (Some (StatusError Forbidden)) ∧
   served (snd (deploy refusedLater retry5 "redis" setNewImage world0)) = 6%nat) ∧
  (fst (deploy unreadableLater retry5 "redis" setNewImage world0)
     = Panic (PanicError (Errorf "Failed to get latest version of %s: %s"
                                 [OpString "redis"; OpError (Some (StatusError Forbidden))])) ∧
   served (snd (deploy unreadableLater retry5 "redis" setNewImage world0)) = 5%nat).
Proof.
  split.
  - set (wk := default world0
                 (cycleStart refusedLater (Duration retry5) "redis" setNewImage 2 true world0)).
    destruct (deploy_failures_end_the_mutation refusedLater retry5 "redis" setNewImage
                world0 2 wk) as [_ Hwrite].
    + vm_compute. lia.
    + vm_compute. reflexivity.
    + set (w1 := snd (DeploymentsGet refusedLater "redis" wk)).
      set (got := default redisDeployment
                    (match fst (DeploymentsGet refusedLater "redis" wk) with
                     | Ret (inl d) => Some d
                     | _ => None
                     end)).
      rewrite (Hwrite got (default redisDeployment (setNewImage got))
                 (StatusError Forbidden) w1
                 (snd (DeploymentsUpdate refusedLater
                         (default redisDeployment (setNewImage got)) w1))).
      * split; reflexivity.
      * vm_compute. reflexivity.
      * vm_compute. reflexivity.
      * vm_compute. reflexivity.
      * reflexivity.
  - set (wk := default world0
                 (cycleStart unreadableLater (Duration retry5) "redis" setNewImage 2 true world0)).
    destruct (deploy_failures_end_the_mutation unreadableLater retry5 "redis" setNewImage
                world0 2 wk) as [Hread _].
    + vm_compute. lia.
    + vm_compute. reflexivity.
    + rewrite (Hread (StatusError Forbidden) (snd (DeploymentsGet unreadableLater "redis" wk))).
      * split; reflexivity.
      * vm_compute. reflexivity.
Defined.

Lemma world0_wellKeyed : wellKeyed (deployments world0).
Proof.
  intros name d. cbn [deployments world0]. rewrite lookup_singleton_Some.
  intros [<- <-]. reflexivity.
Qed.

Lemma world0_has_redis : is_Some (deployments world0 !! "redis").
Proof. exists redisDeployment. reflexivity. Qed.

Lemma contended_imagePreserving : imagePreserving contended.
Proof.
  intros n name g spec H.
  destruct n as [| [| [| [| n]]]]; cbn in H; try discriminate;
    injection H as <- <-; reflexivity.
Qed.

Lemma setNewImage_keepsMeta : keepsMeta setNewImage.
Proof. intros d d' Hset. apply (setImage_image _ _ _ Hset). Qed.

Lemma restoreImage_keepsMeta (originalDeployment : Deployment.t) :
  keepsMeta (restoreImage originalDeployment).
Proof. intros d d' Hset. apply (restoreImage_image _ _ _ Hset). Qed.

(** C4 at work, on the two transforms of [main]: two conflicts and then an
    accepted update under [contended]; five conflicts in a row under
    [crowded], which uses up the five attempts of [retry5]. *)
Lemma deploy_retries_witness :
  (∃ latest latest' w',
     deploy contended retry5 "redis" setNewImage world0 = (Ret None, w') ∧
     setNewImage latest = Some latest' ∧
     served w' = 6%nat ∧
     accepted (history w') = [latest']) ∧
  (∃ e w',
     deploy crowded retry5 "redis" (restoreImage redisDeployment) world0 = (Ret (Some e), w') ∧
     IsConflict e = true ∧
     served w' = 10%nat ∧
     accepted (history w') = []).
Proof.
  split.
  - destruct (deploy_retries_on_conflict contended retry5 "redis" setNewImage world0
                world0_wellKeyed world0_has_redis setNewImage_keepsMeta) as [Hwithin _].
    destruct (Hwithin 2%nat) as (latest & latest' & w' & Hrun & _ & Hop & _ & Hserved & Hacc);
      [vm_compute; lia | reflexivity | reflexivity | |].
    + intros j d Hj Hd. destruct j as [| [| [| j]]]; [| | | lia];
        vm_compute in Hd; injection Hd as <-; eexists; reflexivity.
    + exists latest, latest', w'. repeat split; assumption.
  - destruct (deploy_retries_on_conflict crowded retry5 "redis" (restoreImage redisDeployment)
                world0 world0_wellKeyed world0_has_redis
                (restoreImage_keepsMeta redisDeployment)) as [_ Hbeyond].
    destruct Hbeyond as (e & w' & Hrun & He & _ & Hserved & Hacc);
      [vm_compute; lia | reflexivity | |].
    + intros j d Hj Hd. destruct j as [| [| [| [| [| j]]]]]; [| | | | | vm_compute in Hj; lia];
        vm_compute in Hd; injection Hd as <-; eexists; reflexivity.
    + exists e, w'. repeat split; assumption.
Defined.

(** C4, the claim as worded fails at the boundary: with five attempts
    allowed, five conflicts in a row, a sequence within that bound, use the
    attempts up; [deploy] returns the conflict error and the store has
    accepted nothing, although the next cycle would have gone through. *)
Lemma five_conflicts_use_up_five_attempts :
  Steps retry5 = 5%nat ∧
  conflicts fiveConflicts "redis" 0 5 = true ∧
  lands fiveConflicts "redis" 10 = true ∧
  fst (deploy fiveConflicts retry5 "redis" setNewImage world0)
    = Ret (Some (StatusError Conflict)) ∧
  accepted (history (snd (deploy fiveConflicts retry5 "redis" setNewImage world0))) = [] ∧
  storedImage (snd (deploy fiveConflicts retry5 "redis" setNewImage world0)) "redis"
    = Some "redis:3".
Proof. repeat split; vm_compute; reflexivity. Qed.

(** C8 at work: [main] under [contended], where another client rescales the
    deployment twice; the run ends normally, the second of the two updates
    accepted carries the image of deployments/redis.yml, and the store
    carries that image again. *)
Lemma rollback_restores_witness :
  fst (main contended retry5 world0) = Ret tt ∧
  (∃ fwd back,
     accepted (history (snd (main contended retry5 world0))) = [back; fwd] ∧
     imageOf fwd = Some "redis:doesntexist" ∧
     imageOf back = Some "redis:3") ∧
  storedImage (snd (main contended retry5 world0)) "redis" = Some "redis:3".
Proof.
  assert (fst (main contended retry5 world0) = Ret tt) as Hend by (vm_compute; reflexivity).
  split; [exact Hend |].
  destruct (rollback_restores_snapshot_image contended retry5 world0
              (snd (DeploymentsGet contended "redis" world0))
              (snd (main contended retry5 world0))
              redisDeployment
              (fst (main contended retry5 world0))) as (_ & Hupdates & Himg).
  - vm_compute. lia.
  - exact world0_wellKeyed.
  - exact contended_imagePreserving.
  - vm_compute. reflexivity.
  - apply surjective_pairing.
  - left. exact Hend.
  - split; [exact Hupdates | exact Himg].
Defined.

(** C1, what the code does when the forward verification succeeds: with both
    pods ready at every poll and nothing failing, [main] prints
    [Deploy successful], then sends the update that puts the old image back,
    waits again and ends after [Rolled back successfully!]; the store ends
    with the old image. *)
Theorem main_rolls_back_after_a_successful_deploy :
  fst (main healthy retry5 world0) = Ret tt ∧
  stdout (snd (main healthy retry5 world0))
    = [Literal "Rolled back successfully!"; Literal "Deploy successful"] ∧
  imageOf <$> accepted (history (snd (main healthy retry5 world0)))
    = [Some "redis:3"; Some "redis:doesntexist"] ∧
  storedImage (snd (main healthy retry5 world0)) "redis" = Some "redis:3".
Proof. repeat split; vm_compute; reflexivity. Qed.

(** ** The further properties at work *)

(** X1 at work: one pod ready, one that has not reported any status. *)
Lemma statusless_pods_witness :
  reportsConverged starting "redis" world0 = true.
Proof.
  destruct (statusless_pods_count_as_running starting "redis" world0) as [Hcheck _];
    [reflexivity |].
  rewrite Hcheck. reflexivity.
Defined.

(** X3 at work: every request takes 20 ms. *)
Lemma at_most_five_queries_witness :
  (served (snd (waitForPodContainersRunning slowlyReady "redis" world0)) ≤ 5)%nat.
Proof.
  apply (wait_makes_at_most_five_queries slowlyReady "redis" world0).
  exists 0%nat. split; [lia | reflexivity].
Defined.

(** X4 at work: two queries that time out at the server, then both pods
    ready. *)
Lemma early_failures_witness :
  waitForPodContainersRunning flaky "redis" world0
    = (Ret None, afterPolls flaky "redis" 3 world0) ∧
  served (afterPolls flaky "redis" 3 world0) = 3%nat.
Proof.
  apply (wait_succeeds_after_early_failures flaky "redis" world0 2).
  - intros k Hk. destruct k as [| [| k]]; [| | lia];
      (split; [reflexivity | apply N.leb_le; reflexivity]).
  - reflexivity.
Defined.

(** X6 at work, on the deployment of deployments/redis.yml. *)
Lemma transforms_round_trip_witness :
  restoreImage redisDeployment (default redisDeployment (setNewImage redisDeployment))
    = Some redisDeployment.
Proof.
  exact (proj1 (transforms_round_trip redisDeployment
                  (default redisDeployment (setNewImage redisDeployment)) eq_refl)).
Defined.

(** X7 at work: the stored deployment lists no container. *)
Lemma deploy_without_container_witness :
  deploy healthy retry5 "redis" setNewImage worldBare
    = (Panic IndexOutOfRange, snd (DeploymentsGet healthy "redis" worldBare)) ∧
  served (snd (DeploymentsGet healthy "redis" worldBare)) = 1%nat.
Proof.
  destruct (deploy_panics_without_container healthy retry5 "redis" worldBare
              (snd (DeploymentsGet healthy "redis" worldBare)) bareDeployment)
    as [Hset _].
  - vm_compute. lia.
  - vm_compute. reflexivity.
  - split; [exact (Hset eq_refl "redis:doesntexist") | reflexivity].
Defined.

(** X8 at work: two conflicts, then the update goes through; the descriptor
    transformed is the record as the fifth request found it. *)
Lemma deploy_all_or_nothing_witness :
  ∃ result result',
    settle contended 0 5 (deployments world0) !! "redis" = Some result ∧
    setNewImage result = Some result' ∧
    accepted (history (snd (deploy contended retry5 "redis" setNewImage world0)))
      = result' :: accepted (history world0).
Proof.
  destruct (deploy_is_all_or_nothing contended retry5 "redis" setNewImage world0)
    as [Heff _]; [vm_compute; lia |].
  assert (fst (deploy contended retry5 "redis" setNewImage world0) = Ret None) as Hnil
    by (vm_compute; reflexivity).
  rewrite Hnil in Heff.
  destruct Heff as (j & result & result' & _ & Hres & Hop & Hacc & Hsv & _).
  assert (served (snd (deploy contended retry5 "redis" setNewImage world0)) = 6%nat) as Hsix
    by (vm_compute; reflexivity).
  rewrite Hsix in Hsv. change (served world0) with 0%nat in Hsv.
  assert (j = 2%nat) as -> by lia.
  exists result, result'. split; [exact Hres |]. split; [exact Hop | exact Hacc].
Defined.

(** X9 at work: a namespace without deployments. *)
Lemma main_without_deployment_witness :
  fst (main healthy retry5 worldEmpty) = Panic (PanicError (StatusError NotFound)) ∧
  served (snd (main healthy retry5 worldEmpty)) = 1%nat.
Proof.
  destruct (main_without_deployment healthy retry5 worldEmpty) as (reason & Hmain & Hreason);
    [reflexivity |].
  rewrite Hmain, (Hreason eq_refl). split; reflexivity.
Defined.

(** X10 at work: a run with conflicts on the way. *)
Lemma main_two_updates_witness :
  ∃ fwd back,
    accepted (history (snd (main contended retry5 world0))) = [back; fwd] ∧
    imageOf fwd = Some "redis:doesntexist" ∧
    imageOf back = Some "redis:3".
Proof.
  destruct (main_sends_two_updates contended retry5 world0
              (snd (DeploymentsGet contended "redis" world0))
              (snd (main contended retry5 world0))
              redisDeployment
              (fst (main contended retry5 world0)))
    as (fwd & back & Hacc & Hfwd & Hback & _).
  - vm_compute. lia.
  - exact world0_wellKeyed.
  - vm_compute. reflexivity.
  - apply surjective_pairing.
  - left. vm_compute. reflexivity.
  - exists fwd, back. split; [exact Hacc |]. split; [exact Hfwd | exact Hback].
Defined.

Lemma healthy_quiet : quiet healthy.
Proof. intros n. reflexivity. Qed.

(** X11 at work: a run in a cluster without other writers. *)
Lemma main_quiet_round_trip_witness :
  deployments (snd (main healthy retry5 world0))
    = <["redis" := bump (bump redisDeployment)]> (deployments world0).
Proof.
  destruct (main_quiet_round_trip healthy retry5 world0
              (snd (main healthy retry5 world0)) (fst (main healthy retry5 world0)))
    as (originalDeployment & Horig & Hstore).
  - exact healthy_quiet.
  - vm_compute. lia.
  - exact world0_wellKeyed.
  - apply surjective_pairing.
  - left. vm_compute. reflexivity.
  - assert (deployments world0 !! "redis" = Some redisDeployment) as Hred by reflexivity.
    rewrite Hred in Horig. injection Horig as <-. exact Hstore.
Defined.
